(** * Differentiable-simulation core: finite-difference adjoint and batched rollout

    A shallow embedding of
    - [diff_sim/traj_opt/policy.py]: [build_fd_cache], [make_step_fn]
      ([step_fn], [step_fn_fwd], [step_fn_bwd]),
    - [diff_sim/simulate.py]: [controlled_simulate] ([set_init], [step],
      [rollout]),
    - [contexts/meta_context.py]: [Config], [Callbacks], [Context].

    Arrays are lists (an array is identified with its row-major ravel),
    and the physics engine, the callbacks and the eigenvalue routine are
    parameters. The element type of floating arrays is an abstract
    [Scalar]: what is proved without laws holds for any interpretation of
    the arithmetic; what uses [ScalarLaws] or [ScalarZeroLaws] holds for
    exact arithmetic, without infinities and NaN; what uses [FloatLaws]
    holds for floating-point numbers too ([float_scalar]: the arithmetic
    of IEEE 754 on rationals, infinities and NaN, without rounding), and
    says entry by entry where it needs a finite value.

    [policy.py] sees [mjx.Data] as a pytree of leaves ([PyTree]);
    [simulate.py] only calls the engine on it and reads fields, so there
    it is the abstract type [Data] of an [Engine]. *)

From stdpp Require Import gmap strings list sorting.
From Stdlib Require Import QArith Qcanon ssreflect.

Set Warnings "-rewrite-rw".

Local Open Scope nat_scope.

(* ================================================================== *)
(** * Scalars *)
(* ================================================================== *)

(** The element type of floating arrays with the operations the code uses.
    Nothing is assumed of them here; the few algebraic laws that some
    results need are stated apart, in [ScalarLaws]. [of_int] and [to_int]
    are the dtype conversions between a floating and an integer array. *)
Class Scalar := {
  num : Type;
  s0 : num;
  s1 : num;
  sadd : num → num → num;
  ssub : num → num → num;
  smul : num → num → num;
  sdiv : num → num → num;
  sgtb : num → num → bool;
  of_int : Z → num;
  to_int : num → Z;
}.

Class ScalarLaws (F : Scalar) : Prop := {
  sadd_0_l : ∀ x : num, sadd s0 x = x;
  sadd_0_r : ∀ x : num, sadd x s0 = x;
  smul_0_l : ∀ x : num, smul s0 x = s0;
  of_int_0 : of_int 0 = s0;
  of_int_succ : ∀ z : Z, (0 ≤ z)%Z → of_int (1 + z) = sadd s1 (of_int z);
  to_of_int : ∀ z : Z, to_int (of_int z) = z;
}.

(** Integers as scalars: every law holds. *)
Definition Z_scalar : Scalar := {|
  num := Z;
  s0 := 0%Z;
  s1 := 1%Z;
  sadd := Z.add;
  ssub := Z.sub;
  smul := Z.mul;
  sdiv := Z.div;
  sgtb := Z.gtb;
  of_int := λ z, z;
  to_int := λ z, z;
|}.

(** Rationals in lowest terms as scalars; converting to an integer
    truncates toward zero. Every law holds here too. *)
Definition Qc_trunc (q : Qc) : Z :=
  Z.quot (Qnum (this q)) (Zpos (Qden (this q))).

Definition Qc_gtb (x y : Qc) : bool :=
  match Qclt_le_dec y x with
  | left _ => true
  | right _ => false
  end.

Definition Qc_scalar : Scalar := {|
  num := Qc;
  s0 := 0%Qc;
  s1 := 1%Qc;
  sadd := Qcplus;
  ssub := Qcminus;
  smul := Qcmult;
  sdiv := Qcdiv;
  sgtb := Qc_gtb;
  of_int := λ z, Q2Qc (inject_Z z);
  to_int := Qc_trunc;
|}.

(** Floating-point numbers as scalars, without rounding: a rational, an
    infinity or NaN, with the arithmetic of IEEE 754 on them (the two
    zeros are identified). Zero times an infinity, the difference of two
    equal infinities and [0 / 0] are NaN, and NaN absorbs. Converting to
    an integer is the cast to [int32]: it truncates toward zero,
    saturates at the bounds of the type and sends NaN to 0. *)
Inductive xfloat :=
  | Fin (q : Qc)
  | PInf
  | NInf
  | NaN.

Definition Qc_sgn (q : Qc) : Z := Z.sgn (Qnum (this q)).

(** The infinity of sign [s], NaN for no sign. *)
Definition xinf (s : Z) : xfloat :=
  match s with
  | Z0 => NaN
  | Zpos _ => PInf
  | Zneg _ => NInf
  end.

Definition xsgn (x : xfloat) : Z :=
  match x with
  | Fin q => Qc_sgn q
  | PInf => 1
  | NInf => -1
  | NaN => 0
  end.

Definition xopp (x : xfloat) : xfloat :=
  match x with
  | Fin q => Fin (- q)
  | PInf => NInf
  | NInf => PInf
  | NaN => NaN
  end.

Definition xadd (x y : xfloat) : xfloat :=
  match x, y with
  | NaN, _ | _, NaN => NaN
  | Fin a, Fin b => Fin (a + b)
  | PInf, NInf | NInf, PInf => NaN
  | PInf, _ | _, PInf => PInf
  | NInf, _ | _, NInf => NInf
  end.

Definition xsub (x y : xfloat) : xfloat := xadd x (xopp y).

Definition xmul (x y : xfloat) : xfloat :=
  match x, y with
  | NaN, _ | _, NaN => NaN
  | Fin a, Fin b => Fin (a * b)
  | _, _ => xinf (xsgn x * xsgn y)
  end.

Definition xdiv (x y : xfloat) : xfloat :=
  match x, y with
  | NaN, _ | _, NaN => NaN
  | Fin a, Fin b =>
      match Qc_sgn b with
      | Z0 => xinf (Qc_sgn a)
      | _ => Fin (a / b)
      end
  | Fin _, _ => Fin 0
  | _, Fin b =>
      match Qc_sgn b with
      | Z0 => x
      | sb => xinf (xsgn x * sb)
      end
  | _, _ => NaN
  end.

Definition xgtb (x y : xfloat) : bool :=
  match x, y with
  | NaN, _ | _, NaN => false
  | Fin a, Fin b => Qc_gtb a b
  | PInf, PInf | NInf, _ | Fin _, PInf => false
  | PInf, _ | Fin _, NInf => true
  end.

Definition int32_min : Z := -2147483648.
Definition int32_max : Z := 2147483647.

Definition xto_int (x : xfloat) : Z :=
  match x with
  | Fin q => Z.max int32_min (Z.min int32_max (Qc_trunc q))
  | PInf => int32_max
  | NInf => int32_min
  | NaN => 0
  end.

(** The float that holds the integer [z]. *)
Definition fin (z : Z) : xfloat := Fin (Q2Qc (inject_Z z)).

Definition float_scalar : Scalar := {|
  num := xfloat;
  s0 := fin 0;
  s1 := fin 1;
  sadd := xadd;
  ssub := xsub;
  smul := xmul;
  sdiv := xdiv;
  sgtb := xgtb;
  of_int := fin;
  to_int := xto_int;
|}.

(** The laws of zero that floating-point arithmetic keeps with its
    infinities and NaN. Those it loses ([0 * x = 0], [x - x = 0] and
    [0 / e = 0], which hold of finite [x] and of [e] other than 0 and
    NaN) are hypotheses on the entries concerned where a result needs
    them. *)
Class FloatLaws (F : Scalar) : Prop := {
  fadd_0_r : ∀ x : num, sadd x s0 = x;
  fmul_0_0 : smul s0 s0 = s0;
  fmul_1_0 : smul s1 s0 = s0;
  fof_to_int_0 : of_int (to_int s0) = s0;
}.

(* ================================================================== *)
(** * Arrays *)
(* ================================================================== *)

Section Arrays.
Context {F : Scalar}.

(** [jnp.zeros(n)] *)
Definition zeros (n : nat) : list num := replicate n s0.

(** Elementwise [a + b], [a - b], [a * b] on arrays of one shape, and
    [a / c] for a scalar [c]. *)
Definition vadd (a b : list num) : list num := zip_with sadd a b.
Definition vsub (a b : list num) : list num := zip_with ssub a b.
Definition vmul (a b : list num) : list num := zip_with smul a b.
Definition vdivs (a : list num) (c : num) : list num := (λ x, sdiv x c) <$> a.

(** [jnp.sum(a)] *)
Definition vsum (a : list num) : num := foldr sadd s0 a.

(** [a @ b] for two vectors, and [M @ b] for a matrix given by its rows,
    for operands of matching lengths (the operator raises otherwise). *)
Definition dot (a b : list num) : num := vsum (vmul a b).
Definition matvec (M : list (list num)) (b : list num) : list num :=
  (λ row, dot row b) <$> M.

(** [base.at[idxs].set(v)] for an index array [idxs] and one value [v];
    an index past the end is dropped. *)
Definition at_set {A} (base : list A) (idxs : list nat) (v : A) : list A :=
  foldl (λ acc i, <[i:=v]> acc) base idxs.

(** [base.at[idxs].set(rows)]: entry [idxs[k]] becomes [rows[k]]. *)
Definition at_set_rows {A} (base : list A) (idxs : list nat) (rows : list A)
  : list A :=
  foldl (λ acc ir, <[ir.1:=ir.2]> acc) base (zip idxs rows).

(** [np.arange(start, stop)] *)
Definition arange (start stop : nat) : list nat := seq start (stop - start).

(** [np.cumsum(sizes)] *)
Fixpoint cumsum_from (acc : nat) (sizes : list nat) : list nat :=
  match sizes with
  | [] => []
  | n :: rest => (acc + n) :: cumsum_from (acc + n) rest
  end.
Definition cumsum (sizes : list nat) : list nat := cumsum_from 0 sizes.

(** [len(idxs)] as a scalar. *)
Definition num_of_nat (n : nat) : num := of_int (Z.of_nat n).

(** The vector [v] with [e] added to its coordinate [i], and to no
    other. *)
Definition perturb (v : list num) (i : nat) (e : num) : list num :=
  alter (λ x, sadd x e) i v.

(** The masked forward difference of two flattened results for the step
    size [e]: entry [j] is [mask[j] * (perturbed[j] - base[j]) / e]. *)
Definition forward_difference (mask perturbed base : list num) (e : num)
  : list num :=
  (λ mpb : num * (num * num), sdiv (smul mpb.1 (ssub mpb.2.1 mpb.2.2)) e)
    <$> zip mask (zip perturbed base).
End Arrays.

(* ================================================================== *)
(** * The structured state and its flat encoding *)
(* ================================================================== *)

(** One level of a leaf's path, as [jax.tree_util.tree_leaves_with_path]
    yields them. Only an attribute key has a [name]. *)
Inductive key :=
  | GetAttrKey (name : string)
  | SequenceKey (idx : nat)
  | DictKey (k : string).

(** [getattr(level, 'name', None)] *)
Definition key_name (level : key) : option string :=
  match level with
  | GetAttrKey name => Some name
  | _ => None
  end.

(** [jax.flatten_util.ravel_pytree] is library code that [policy.py]
    imports. It is modelled after its implementation: the leaves are
    converted to the common result dtype and concatenated in traversal
    order; the returned [unravel] splits a flat array at the cumulative
    leaf sizes (the layout that [build_fd_cache] recomputes with
    [np.cumsum(sizes)]) and converts each chunk back to the dtype of its
    leaf. *)

Section PyTree.
Context {F : Scalar}.

(** A leaf array of [mjx.Data], ravelled, with its dtype: floating, or
    integer (a discrete field, whose tangent type is [float0]). *)
Inductive leaf :=
  | FloatLeaf (xs : list num)
  | IntLeaf (zs : list Z).

(** [mjx.Data] as [tree_leaves_with_path] lists it: the leaves in the
    canonical traversal order, each with its path. *)
Definition PyTree := list (list key * leaf).

(** [jnp.size(leaf)] *)
Definition leaf_size (lf : leaf) : nat :=
  match lf with
  | FloatLeaf xs => length xs
  | IntLeaf zs => length zs
  end.

Definition is_discrete (lf : leaf) : bool :=
  match lf with IntLeaf _ => true | FloatLeaf _ => false end.

(** [jnp.ravel(lax.convert_element_type(e, to_dtype))] with the floating
    result type of a state that has floating leaves. The conversion is
    [of_int] of the scalars, which need not be exact. *)
Definition leaf_ravel (lf : leaf) : list num :=
  match lf with
  | FloatLeaf xs => xs
  | IntLeaf zs => of_int <$> zs
  end.

(** [lax.convert_element_type(chunk, dtype)] back to the dtype that the
    reference leaf [lf] had. The conversion is [to_int] of the scalars,
    which may truncate and saturate; an integer leaf holds the integers
    it yields. *)
Definition leaf_unravel (lf : leaf) (chunk : list num) : leaf :=
  match lf with
  | FloatLeaf _ => FloatLeaf chunk
  | IntLeaf _ => IntLeaf (to_int <$> chunk)
  end.

(** [jnp.zeros_like(leaf)] *)
Definition leaf_zeros_like (lf : leaf) : leaf :=
  match lf with
  | FloatLeaf xs => FloatLeaf (zeros (length xs))
  | IntLeaf zs => IntLeaf (replicate (length zs) 0%Z)
  end.

(** The first component of [ravel_pytree(tree)]: the leaves, converted
    and concatenated in traversal order. *)
Definition ravel (tree : PyTree) : list num :=
  concat ((λ pl, leaf_ravel pl.2) <$> tree).

(** The second component of [ravel_pytree(ref)], applied to an [arr] of
    the length of the flattened [ref] (the library raises a [TypeError]
    for any other length; no call below has one): [arr] is split at the
    cumulative leaf sizes of [ref], and each chunk is converted to the
    dtype of the leaf it stands for. *)
Fixpoint unravel (ref : PyTree) (arr : list num) : PyTree :=
  match ref with
  | [] => []
  | (path, lf) :: rest =>
      (path, leaf_unravel lf (take (leaf_size lf) arr))
        :: unravel rest (drop (leaf_size lf) arr)
  end.

Definition ravel_pytree (tree : PyTree) : list num * (list num → PyTree) :=
  (ravel tree, unravel tree).

(** Two trees of one structure: the same paths, dtypes and leaf sizes. *)
Definition same_leaf_shape (a b : leaf) : Prop :=
  is_discrete a = is_discrete b ∧ leaf_size a = leaf_size b.

Definition same_shape (a b : PyTree) : Prop :=
  Forall2 (λ x y, x.1 = y.1 ∧ same_leaf_shape x.2 y.2) a b.

(** For each flat position, whether it lies in an integer leaf. *)
Definition discrete_mask (tree : PyTree) : list bool :=
  concat ((λ pl, replicate (leaf_size pl.2) (is_discrete pl.2)) <$> tree).

(** A flat vector whose entries at the positions of integer leaves are
    values of integers. *)
Definition integral_on_discrete (tree : PyTree) (v : list num) : Prop :=
  ∀ k x, discrete_mask tree !! k = Some true → v !! k = Some x →
         of_int (to_int x) = x.

(** A state whose integer entries come back unchanged from the
    conversion to the floating dtype and back. *)
Definition exact_on_discrete (tree : PyTree) : Prop :=
  Forall (λ pl : list key * leaf,
            match pl.2 with
            | FloatLeaf _ => True
            | IntLeaf zs => Forall (λ z, to_int (of_int z) = z) zs
            end) tree.
End PyTree.

(* ================================================================== *)
(** * Exceptions *)
(* ================================================================== *)

Inductive exn :=
  | ValueError
  | AssertionError.

(** The outcome of a call that may raise. *)
Inductive result (A : Type) :=
  | Ok (a : A)
  | Raise (e : exn).
Arguments Ok {A} a.
Arguments Raise {A} e.

Definition bind {A B} (r : result A) (k : A → result B) : result B :=
  match r with
  | Ok a => k a
  | Raise e => Raise e
  end.

Notation "x ←! r ; k" := (bind r (λ x, k))
  (at level 20, r at level 100, k at level 200, only parsing).

(* ================================================================== *)
(** * policy.py: the finite-difference cache *)
(* ================================================================== *)

Section BuildFDCache.
Context {F : Scalar}.

(** [class FDCache] *)
Record FDCache := {
  unravel_dx : list num → PyTree;
  sensitivity_mask : list num;
  inner_idx : list nat;
  dx_size : nat;
  num_u_dims : nat;
  eps : num;
}.

(** [any(getattr(level, 'name', None) in target_fields for level in path)] *)
Definition name_matches (target_fields : gset string) (path : list key)
  : bool :=
  existsb (λ level,
             match key_name level with
             | Some name => bool_decide (name ∈ target_fields)
             | None => false
             end) path.

(** The loop [for i, (path, leaf_val) in enumerate(leaves_with_path)],
    entered with the counter at [i]. *)
Fixpoint target_leaves_from (i : nat) (target_fields : gset string)
    (leaves_with_path : PyTree) : list nat :=
  match leaves_with_path with
  | [] => []
  | (path, _) :: rest =>
      if name_matches target_fields path
      then i :: target_leaves_from (S i) target_fields rest
      else target_leaves_from (S i) target_fields rest
  end.

Definition idx_target_state (target_fields : gset string)
    (leaves_with_path : PyTree) : list nat :=
  target_leaves_from 0 target_fields leaves_with_path.

(** [leaf_index_range(leaf_idx)] over the tuple [indices]; [leaf_idx]
    comes from [enumerate(leaves_with_path)], so both lookups are in
    range. *)
Definition leaf_index_range (indices : list nat) (leaf_idx : nat)
  : list nat :=
  let start :=
    if leaf_idx =? 0 then 0 else default 0 (indices !! (leaf_idx - 1)) in
  let stop := default 0 (indices !! leaf_idx) in
  arange start stop.

(** [np.concatenate(arrays, axis=0)]: an empty list of arrays is a
    [ValueError] ("need at least one array to concatenate"). *)
Definition np_concatenate (arrays : list (list nat)) : result (list nat) :=
  match arrays with
  | [] => Raise ValueError
  | _ => Ok (concat arrays)
  end.

Definition default_target_fields : gset string :=
  {[ "qpos"; "qvel"; "ctrl" ]}.

(** [build_fd_cache(dx_ref, u_ref, target_fields, eps)] *)
Definition build_fd_cache (dx_ref : PyTree) (u_ref : list num)
    (target_fields : option (gset string)) (eps : num) : result FDCache :=
  let target_fields := default default_target_fields target_fields in
  let '(dx_array, unravel_dx) := ravel_pytree dx_ref in
  let dx_size := length dx_array in
  let u_ref_flat := u_ref in
  let num_u_dims := length u_ref_flat in
  let leaves_with_path := dx_ref in
  let sizes := (λ pl, leaf_size pl.2) <$> leaves_with_path in
  let indices := cumsum sizes in
  let idx_target_state := idx_target_state target_fields leaves_with_path in
  let inner_idx_list := leaf_index_range indices <$> idx_target_state in
  inner_idx ←! np_concatenate inner_idx_list;
  let sensitivity_mask := at_set (zeros (length dx_array)) inner_idx s1 in
  Ok {| unravel_dx := unravel_dx;
        sensitivity_mask := sensitivity_mask;
        inner_idx := inner_idx;
        dx_size := dx_size;
        num_u_dims := num_u_dims;
        eps := eps |}.

(** The flat positions [start, stop) that leaf number [i] of [tree]
    occupies in [ravel tree]. *)
Definition leaf_start (tree : PyTree) (i : nat) : nat :=
  sum_list ((λ pl, leaf_size pl.2) <$> take i tree).

Definition in_leaf (tree : PyTree) (i k : nat) : Prop :=
  ∃ path lf, tree !! i = Some (path, lf) ∧
             leaf_start tree i ≤ k < leaf_start tree i + leaf_size lf.

(** A path that names a target field: some level of it has a [name]
    that is in [target_fields]. *)
Definition names_target (target_fields : gset string) (path : list key)
  : Prop :=
  ∃ level name, level ∈ path ∧ key_name level = Some name ∧
                name ∈ target_fields.

(** The flat positions of the leaves of [tree] that name a target field,
    in one pass over the leaves; [off] is the position where the first
    leaf starts. [build_fd_cache] is compared with it below. *)
Fixpoint inner_from (off : nat) (target_fields : gset string)
    (tree : PyTree) : list nat :=
  match tree with
  | [] => []
  | (path, lf) :: rest =>
      (if name_matches target_fields path
       then seq off (leaf_size lf) else [])
        ++ inner_from (off + leaf_size lf) target_fields rest
  end.

(** The 0/1 indicator of [idxs] on the positions [a, a + n). *)
Definition indicator (idxs : list nat) (a n : nat) : list num :=
  (λ k : nat, if bool_decide (k ∈ idxs) then s1 else s0) <$> seq a n.
End BuildFDCache.

(* ================================================================== *)
(** * policy.py: the step function and its finite-difference adjoint *)
(* ================================================================== *)

#[global] Instance key_eq_dec : EqDecision key.
Proof. solve_decision. Defined.

Section StepFn.
Context {F : Scalar}.

(** [mjx.step(mx, .)] for the model [mx] that [make_step_fn] closes
    over, and the caller's [set_control_fn]. *)
Variable mjx_step : PyTree → PyTree.
Variable set_control_fn : PyTree → list num → PyTree.
Variable fd_cache : FDCache.

Definition step_fn (dx : PyTree) (u : list num) : PyTree :=
  let dx_with_ctrl := set_control_fn dx u in
  let dx_next := mjx_step dx_with_ctrl in
  dx_next.


(** A leaf of the upstream gradient: an array of dtype [float0] (the
    tangent of an integer leaf; it holds no numbers, only a size), or a
    floating array. *)
Inductive gleaf :=
  | Float0 (size : nat)
  | GradLeaf (xs : list num).

Definition GradTree := list (list key * gleaf).

Definition fix_leaf (d_leaf : leaf) (g_leaf : gleaf) : leaf :=
  match g_leaf with
  | Float0 _ => leaf_zeros_like d_leaf
  | GradLeaf xs => FloatLeaf xs
  end.

(** [jax.tree_map(f, diff_tree, grad_tree)] for a [grad_tree] that is a
    tree of arrays: it must have the leaf paths of [diff_tree], or a
    [ValueError] is raised. *)
Fixpoint tree_map2 (f : leaf → gleaf → leaf) (diff_tree : PyTree)
    (grad_tree : GradTree) : result PyTree :=
  match diff_tree, grad_tree with
  | [], [] => Ok []
  | (p, d_leaf) :: diff_rest, (q, g_leaf) :: grad_rest =>
      match decide (p = q) with
      | left _ =>
          rest ←! tree_map2 f diff_rest grad_rest;
          Ok ((p, f d_leaf g_leaf) :: rest)
      | right _ => Raise ValueError
      end
  | _, _ => Raise ValueError
  end.

Definition map_g_to_dinput (diff_tree : PyTree) (grad_tree : GradTree)
  : result PyTree :=
  tree_map2 fix_leaf diff_tree grad_tree.

(** An upstream gradient of the tree structure of the state. *)
Definition same_structure (diff_tree : PyTree) (grad_tree : GradTree)
  : Prop :=
  Forall2 (λ d gl, d.1 = gl.1) diff_tree grad_tree.

Section Backward.
Variables (dx_in : PyTree) (u_in : list num) (dx_out : PyTree).

Let dx_array := ravel dx_in.
Let dx_out_array := ravel dx_out.
Let u_in_flat := u_in.

Definition fdu_plus (i : nat) : list num :=
  let e := <[i:=eps fd_cache]> (zeros (length u_in_flat)) in
  let u_in_eps := vadd u_in_flat e in
  let dx_perturbed := step_fn dx_in u_in_eps in
  let dx_perturbed_array := ravel dx_perturbed in
  vdivs (vmul (sensitivity_mask fd_cache)
              (vsub dx_perturbed_array dx_out_array))
        (eps fd_cache).

(** [jax.vmap(fdu_plus)(jnp.arange(num_u_dims))] *)
Definition Ju_array : list (list num) :=
  fdu_plus <$> arange 0 (num_u_dims fd_cache).

Definition fdx_for_index (idx : nat) : list num :=
  let perturbation := <[idx:=eps fd_cache]> (zeros (length dx_array)) in
  let dx_in_perturbed :=
    unravel_dx fd_cache (vadd dx_array perturbation) in
  let dx_perturbed := step_fn dx_in_perturbed u_in in
  let dx_perturbed_array := ravel dx_perturbed in
  vdivs (vmul (sensitivity_mask fd_cache)
              (vsub dx_perturbed_array dx_out_array))
        (eps fd_cache).

(** [jax.vmap(fdx_for_index)(inner_idx)] *)
Definition Jx_rows : list (list num) :=
  fdx_for_index <$> inner_idx fd_cache.

Definition scatter_rows (subset_rows : list (list num))
    (subset_indices : list nat) (full_shape : nat * nat)
  : list (list num) :=
  let base := replicate full_shape.1 (zeros full_shape.2) in
  at_set_rows base subset_indices subset_rows.

Definition Jx_array : list (list num) :=
  let dx_dim := length dx_array in
  scatter_rows Jx_rows (inner_idx fd_cache) (dx_dim, dx_dim).
End Backward.

(** [step_fn_bwd(res, g)] *)
Definition step_fn_bwd (res : PyTree * list num * PyTree) (g : GradTree)
  : result (PyTree * list num) :=
  let '(dx_in, u_in, dx_out) := res in
  mapped_g ←! map_g_to_dinput dx_in g;
  let g_array := ravel mapped_g in
  let d_u_flat := matvec (Ju_array dx_in u_in dx_out) g_array in
  let d_x_flat := matvec (Jx_array dx_in u_in dx_out) g_array in
  let d_x := unravel_dx fd_cache d_x_flat in
  let d_u := d_u_flat in
  Ok (d_x, d_u).
End StepFn.

(* ================================================================== *)
(** * meta_context.py: configuration, callbacks and context *)
(* ================================================================== *)

(** What the code reads of [mjx.Model]. *)
Record Model := {
  nq : nat;
  nv : nat;
  nu : nat;
}.

(** The physics engine and the random-key library, for a type [Data] of
    engine states ([mjx.Data]) and a type [Key] of random keys. *)
Class Engine {F : Scalar} := {
  Data : Type;
  Key : Type;
  (** [mjx.make_data(mx)] *)
  make_data : Model → Data;
  (** [mjx.step(mx, dx)] *)
  mjx_step : Model → Data → Data;
  (** [dx.replace(qpos=dx.qpos.at[:].set(a), qvel=dx.qvel.at[:].set(b))] *)
  replace_qpos_qvel : Data → list num → list num → Data;
  (** [dx.ctrl], [dx.time] *)
  data_ctrl : Data → list num;
  data_time : Data → num;
  (** [jax.random.split(key)] *)
  random_split : Key → Key * Key;
}.

Section MetaContext.
Context {F : Scalar} {E : Engine}.
(** The type of networks ([diff_sim.nn.base_nn.Network]). *)
Variable Network : Type.

(** [class Config] *)
Record Config := {
  lr : num;
  seed : Z;
  nsteps : nat;
  epochs : nat;
  batch : nat;
  vis : nat;
  dt : num;
  path : string;
  R : list (list num);
  mx : Model;
}.

(** [class Callbacks], with the signatures [simulate.py] calls them at. *)
Record Callbacks := {
  run_cost : Model → Data → num;
  terminal_cost : Model → Data → num;
  control_cost : Model → Data → num;
  init_gen : nat → Key → list (list num);
  state_encoder : Model → Data → list num;
  state_decoder : list num → list num;
  gen_network : Z → Network;
  controller : Network → Model → Data → Key → Data * list num;
}.

(** [class Context] *)
Record Context := {
  cfg : Config;
  cbs : Callbacks;
}.

(** [jnp.linalg.eigh(R)[0]]: the eigenvalues the library computes. *)
Variable linalg_eigh_values : list (list num) → list num.

(** [jnp.all(a > 0)] *)
Definition all_positive (a : list num) : bool :=
  forallb (λ x, sgtb x s0) a.

(** [Context.__init__(cfg, cbs)] *)
Definition Context_init (cfg0 : Config) (cbs0 : Callbacks)
  : result Context :=
  let self := {| cfg := cfg0; cbs := cbs0 |} in
  if all_positive (linalg_eigh_values (R (cfg self)))
  then Ok self
  else Raise AssertionError.
End MetaContext.

Arguments run_cost {F E Network} _ _ _.
Arguments terminal_cost {F E Network} _ _ _.
Arguments control_cost {F E Network} _ _ _.
Arguments init_gen {F E Network} _ _ _.
Arguments state_encoder {F E Network} _ _ _.
Arguments state_decoder {F E Network} _ _.
Arguments gen_network {F E Network} _ _.
Arguments controller {F E Network} _ _ _ _ _.
Arguments cfg {F E Network} _.
Arguments cbs {F E Network} _.
Arguments Build_Context {F E Network} _ _.
Arguments Context_init {F E Network} _ _ _.

(* ================================================================== *)
(** * simulate.py: the batched rollout *)
(* ================================================================== *)

Section Slices.
Context {A : Type}.

(** [row[:-k]] for [k > 0] *)
Definition slice_to_neg (k : nat) (row : list A) : list A :=
  take (length row - k) row.

(** [row[-a:-b]] for [a, b > 0] *)
Definition slice_neg_neg (a b : nat) (row : list A) : list A :=
  drop (length row - a) (take (length row - b) row).

(** [row[-k]] for [0 < k <= len(row)] *)
Definition index_neg (d : A) (k : nat) (row : list A) : A :=
  default d (row !! (length row - k)).

(** [jax.lax.scan(f, init, None, length=n)]: the final carry and the
    stacked outputs. *)
Fixpoint scan {C : Type} (f : C → C * A) (init : C) (n : nat)
  : C * list A :=
  match n with
  | O => (init, [])
  | S n' =>
      let '(carry, y) := f init in
      let '(final, ys) := scan f carry n' in
      (final, y :: ys)
  end.

(** The carry that enters iteration [t] of a scan. *)
Fixpoint carry_at {C : Type} (f : C → C * A) (init : C) (t : nat) : C :=
  match t with
  | O => init
  | S t' => carry_at f (f init).1 t'
  end.
End Slices.

Section Simulate.
Context {F : Scalar} {E : Engine}.
Variable Network : Type.
Variables (ctx : Context Network) (net : Network) (key : Key).

Let mx := mx (cfg ctx).

Definition cost_fn (mx : Model) (dx : Data) : list num :=
  let ucost := smul (control_cost (cbs ctx) mx dx) (dt (cfg ctx)) in
  let xcst := smul (run_cost (cbs ctx) mx dx) (dt (cfg ctx)) in
  [sadd ucost xcst].

Definition set_init (x : list num) : Data :=
  let dx := make_data mx in
  let dx := replace_qpos_qvel dx (take (nq mx) x) (drop (nq mx) x) in
  mjx_step mx dx.

Definition step (carry : Data * Key) : (Data * Key) * list num :=
  let '(dx, key) := carry in
  let '(key, subkey) := random_split key in
  let '(dx, u) := controller (cbs ctx) net mx dx subkey in
  let cost := cost_fn mx dx in
  let dx := mjx_step mx dx in
  let x := state_encoder (cbs ctx) mx dx in
  let t := [data_time dx] in
  ((dx, key), x ++ data_ctrl dx ++ cost ++ t).

(** What [rollout] returns for one batch element. *)
Record Trajectory := {
  traj_x : list (list num);
  traj_u : list (list num);
  traj_costs : list num;
  traj_t : list num;
}.

(** [rollout(x_init)] for a horizon [nsteps >= 1]; with [nsteps = 0] the
    scan is asked for a length of -1 and raises. *)
Definition rollout (x_init : list num) : Trajectory :=
  let dx := set_init x_init in
  let '((dx, _), res) := scan step (dx, key) (nsteps (cfg ctx) - 1) in
  let x := slice_to_neg (nu mx + 2) <$> res in
  let u := slice_neg_neg (nu mx + 2) 2 <$> res in
  let costs := index_neg s0 2 <$> res in
  let ts := index_neg s0 1 <$> res in
  let x := [x_init] ++ x in
  let t := [dt (cfg ctx)] ++ ts in
  let tcost := terminal_cost (cbs ctx) mx dx in
  let costs := costs ++ [tcost] in
  {| traj_x := x; traj_u := u; traj_costs := costs; traj_t := t |}.

(** [controlled_simulate(x_inits, ctx, net, key)]: [rollout] mapped over
    the leading (batch) axis; each returned array is stacked along it. *)
Definition controlled_simulate (x_inits : list (list num))
  : list (list (list num)) * list (list (list num))
    * list (list num) * list (list num) :=
  let out := rollout <$> x_inits in
  (traj_x <$> out, traj_u <$> out, traj_costs <$> out, traj_t <$> out).

(** The engine state that enters iteration [t] of the scan of
    [rollout x_init], the key it is given, and the state after the
    controller has written its control. *)
Definition carry_state (x_init : list num) (t : nat) : Data :=
  (carry_at step (set_init x_init, key) t).1.

Definition carry_subkey (x_init : list num) (t : nat) : Key :=
  (random_split (carry_at step (set_init x_init, key) t).2).2.

Definition controlled_state (x_init : list num) (t : nat) : Data :=
  (controller (cbs ctx) net mx (carry_state x_init t)
     (carry_subkey x_init t)).1.

(** The single entry of [cost_fn mx dx]. *)
Definition running_cost (dx : Data) : num :=
  sadd (smul (control_cost (cbs ctx) mx dx) (dt (cfg ctx)))
       (smul (run_cost (cbs ctx) mx dx) (dt (cfg ctx))).

(** The reading of "the cost recorded at index [t] is computed from a
    state one physics step ahead of the state recorded at index [t]":
    the recorded state is the encoding of some engine state [d], and the
    recorded cost is the running cost of the state that [d] steps to,
    with the control the controller writes there. *)
Definition cost_one_step_ahead (x_init : list num) (t : nat) : Prop :=
  ∃ (d : Data) (k : Key),
    traj_x (rollout x_init) !! t = Some (state_encoder (cbs ctx) mx d) ∧
    traj_costs (rollout x_init) !! t
    = Some (running_cost (controller (cbs ctx) net mx (mjx_step mx d) k).1).
End Simulate.

Arguments cost_fn {F E Network} _ _ _.
Arguments set_init {F E Network} _ _.
Arguments step {F E Network} _ _ _.
Arguments rollout {F E Network} _ _ _ _.
Arguments controlled_simulate {F E Network} _ _ _ _.
Arguments carry_state {F E Network} _ _ _ _ _.
Arguments carry_subkey {F E Network} _ _ _ _ _.
Arguments controlled_state {F E Network} _ _ _ _ _.
Arguments running_cost {F E Network} _ _.
Arguments cost_one_step_ahead {F E Network} _ _ _ _ _.

(* ================================================================== *)
(** * meta_context.py: validation of the callbacks *)
(* ================================================================== *)

(** A type that stands as an annotation, by its name. *)
Definition pytype := string.

(** An entry of [get_type_hints(self.__init__)]: [Callable[[args], ret]],
    or a type whose origin is not [collections.abc.Callable]. *)
Inductive hint :=
  | Callable (args : list pytype) (ret : pytype)
  | Plain (t : pytype).

(** [inspect.signature(func)]: the parameters with their annotations and
    the return annotation; [None] is [Parameter.empty]. *)
Record param := {
  param_name : string;
  param_annotation : option pytype;
}.

Record signature := {
  sig_parameters : list param;
  sig_return_annotation : option pytype;
}.

(** The [TypeError]s of [_validate_callbacks], one constructor per
    [raise], with what its message names. *)
Inductive type_error :=
  | NotCallableType (attr_name : string)
  | WrongParamCount (attr_name : string) (expected received : nat)
  | ParamLacksAnnotation (name attr_name : string)
  | ParamWrongType (name attr_name : string) (found expected : pytype)
  | ReturnLacksAnnotation (attr_name : string)
  | ReturnWrongType (attr_name : string) (found expected : pytype).

(** The loop [for param, expected_arg_type in zip(func_params,
    expected_args_types)]; the result is the error raised, if any. *)
Fixpoint check_params (attr_name : string) (func_params : list param)
    (expected_args_types : list pytype) : option type_error :=
  match func_params, expected_args_types with
  | p :: params_rest, expected_arg_type :: types_rest =>
      match param_annotation p with
      | None => Some (ParamLacksAnnotation (param_name p) attr_name)
      | Some annotation =>
          if bool_decide (annotation = expected_arg_type)
          then check_params attr_name params_rest types_rest
          else Some (ParamWrongType (param_name p) attr_name annotation
                       expected_arg_type)
      end
  | _, _ => None
  end.

(** The body of the loop of [_validate_callbacks] for one attribute. *)
Definition validate_attr (attr_name : string) (expected_type : hint)
    (func : signature) : option type_error :=
  match expected_type with
  | Plain _ => Some (NotCallableType attr_name)
  | Callable expected_args_types expected_return_type =>
      let func_params := sig_parameters func in
      if bool_decide (length func_params = length expected_args_types)
      then
        match check_params attr_name func_params expected_args_types with
        | Some e => Some e
        | None =>
            match sig_return_annotation func with
            | None => Some (ReturnLacksAnnotation attr_name)
            | Some r =>
                if bool_decide (r = expected_return_type) then None
                else Some (ReturnWrongType attr_name r expected_return_type)
            end
        end
      else Some (WrongParamCount attr_name (length expected_args_types)
                   (length func_params))
  end.

(** [_validate_callbacks(self)] over the entries of [annotations], with
    [self] read through [getattr]. *)
Fixpoint validate_callbacks (annotations : list (string * hint))
    (self : string → signature) : option type_error :=
  match annotations with
  | [] => None
  | (attr_name, expected_type) :: rest =>
      if bool_decide (attr_name = "return")
      then validate_callbacks rest self
      else
        match validate_attr attr_name expected_type (self attr_name) with
        | Some e => Some e
        | None => validate_callbacks rest self
        end
  end.

(** The annotations of [Callbacks.__init__], in the order of its
    parameters. *)
Definition Callbacks_annotations : list (string * hint) :=
  [ ("run_cost", Callable ["jnp.ndarray"] "jnp.ndarray");
    ("terminal_cost", Callable ["jnp.ndarray"] "jnp.ndarray");
    ("control_cost", Callable ["jnp.ndarray"] "jnp.ndarray");
    ("init_gen", Callable ["int"; "jnp.ndarray"] "jnp.ndarray");
    ("state_encoder", Callable ["jnp.ndarray"] "jnp.ndarray");
    ("state_decoder", Callable ["jnp.ndarray"] "jnp.ndarray");
    ("gen_network", Callable [] "eqx.Module");
    ("controller",
     Callable ["jnp.ndarray"; "jnp.ndarray"; "eqx.Module"; "Config";
               "mjx.Model"; "mjx.Data"] "jnp.ndarray") ].

(** [Callbacks.__init__]: the attributes are stored, then validated. *)
Definition Callbacks_validate (self : string → signature)
  : option type_error :=
  validate_callbacks Callbacks_annotations self.

(** A signature that matches a hint exactly. *)
Definition matches_hint (func : signature) (expected_type : hint) : Prop :=
  ∃ args ret,
    expected_type = Callable args ret ∧
    param_annotation <$> sig_parameters func = Some <$> args ∧
    sig_return_annotation func = Some ret.

(* ================================================================== *)
(** * policy.py: the trajectory and the optimisation loop *)
(* ================================================================== *)

Section SimulateTrajectory.
Context {F : Scalar}.

(** The engine state [mjx.Data] with the fields that
    [simulate_trajectory] reads and writes. *)
Variable Dx : Type.
Variable make_data : Dx.
Variable replace_qpos : Dx → list num → Dx.
Variables dx_qpos dx_qvel : Dx → list num.
Variable dx_time : Dx → num.

Variables running_cost_fn terminal_cost_fn : Dx → num.
Variable step_fn : Dx → list num → Dx.
(** [equinox.combine(params, static)] *)
Variable model : list num → num → list num.

Definition scan_step_fn (dx : Dx) : Dx * (list num * num) :=
  let x := dx_qpos dx ++ dx_qvel dx in
  let u := model x (dx_time dx) in
  let dx := step_fn dx u in
  let c := running_cost_fn dx in
  let state := dx_qpos dx ++ dx_qvel dx in
  (dx, (state, c)).

Definition simulate_trajectory (qpos_init : list num) (length : nat)
  : list (list num) * num :=
  let dx0 := make_data in
  let dx0 := replace_qpos dx0 qpos_init in
  let '(dx_final, out) := scan scan_step_fn dx0 length in
  let states := fst <$> out in
  let costs := snd <$> out in
  let total_cost := sadd (vsum costs) (terminal_cost_fn dx_final) in
  (states, total_cost).

(** The engine state after [t] steps of the trajectory. *)
Definition trajectory_state (qpos_init : list num) (t : nat) : Dx :=
  carry_at scan_step_fn (replace_qpos make_data qpos_init) t.
End SimulateTrajectory.

Section Solve.
Context {F : Scalar}.

(** The model ([equinox.Module]), its array and static parts, gradients,
    the optimiser state and the updates. *)
Variables (EqxModule Params Static Grads OptState Updates : Type).
(** [equinox.partition(model, equinox.is_array)] and
    [equinox.apply_updates(model, updates)] *)
Variable partition : EqxModule → Params * Static.
Variable apply_updates : EqxModule → Updates → EqxModule.

(** [class Policy] *)
Record Policy := {
  loss : Params → Static → num;
  grad_loss : Params → Static → Grads;
}.

(** One pass of the body of [for i in range(max_iter)]; the third
    component collects what [print] writes, as [(i, f_val)]. *)
Definition solve_iteration (self : Policy)
    (optim_update : Grads → OptState → EqxModule → Updates * OptState)
    (acc : EqxModule * OptState * list (nat * num)) (i : nat)
  : EqxModule * OptState * list (nat * num) :=
  let '(model, state, printed) := acc in
  let '(params, static) := partition model in
  let g := grad_loss self params static in
  let f_val := loss self params static in
  let '(updates, state) := optim_update g state model in
  let model := apply_updates model updates in
  (model, state, printed ++ [(i, f_val)]).

(** The loop of [solve]: the model, the optimiser state and the printed
    lines after [range(max_iter)]. *)
Definition solve_loop (self : Policy)
    (optim_update : Grads → OptState → EqxModule → Updates * OptState)
    (model : EqxModule) (state : OptState) (max_iter : Z)
  : EqxModule * OptState * list (nat * num) :=
  foldl (solve_iteration self optim_update) (model, state, [])
        (seq 0 (Z.to_nat max_iter)).

(** [Policy.solve(self, model, optim, state, max_iter)]: the returned
    model, and the lines printed. *)
Definition solve (self : Policy)
    (optim_update : Grads → OptState → EqxModule → Updates * OptState)
    (model : EqxModule) (state : OptState) (max_iter : Z)
  : EqxModule * list (nat * num) :=
  let '(model, _, printed) :=
    solve_loop self optim_update model state max_iter in
  (model, printed).

(** The loss of a model, as [solve] evaluates it. *)
Definition model_loss (self : Policy) (model : EqxModule) : num :=
  loss self (partition model).1 (partition model).2.
End Solve.

(* ================================================================== *)
(** * Further notions for the rollout and the adjoint *)
(* ================================================================== *)

(** The context [ctx] with another controller. *)
Definition with_controller {F : Scalar} {E : Engine} {Network : Type}
    (ctx : Context Network)
    (c : Network → Model → Data → Key → Data * list num)
  : Context Network :=
  {| cfg := cfg ctx;
     cbs := {| run_cost := run_cost (cbs ctx);
               terminal_cost := terminal_cost (cbs ctx);
               control_cost := control_cost (cbs ctx);
               init_gen := init_gen (cbs ctx);
               state_encoder := state_encoder (cbs ctx);
               state_decoder := state_decoder (cbs ctx);
               gen_network := gen_network (cbs ctx);
               controller := c |} |}.

(** The key that the carry of the scan of [rollout] holds when iteration
    [t] starts: [key] after [t] times [key, subkey = split(key)]. *)
Fixpoint key_at {F : Scalar} {E : Engine} (key : Key) (t : nat) : Key :=
  match t with
  | O => key
  | S t' => key_at (random_split key).1 t'
  end.

(** Laws of zero that exact arithmetic has besides [ScalarLaws]. *)
Class ScalarZeroLaws (F : Scalar) : Prop := {
  smul_0_r : ∀ x : num, smul x s0 = s0;
  sdiv_0_l : ∀ e : num, e ≠ s0 → sdiv s0 e = s0;
}.

(** A control setter that does not read leaf [i] of a state of the shape
    of [ref]: two such states that differ in that leaf only are set to
    the same state, as by [dx.replace(ctrl=dx.ctrl.at[:].set(u))] for the
    leaf [ctrl]. *)
Definition overwrites_leaf {F : Scalar}
    (set_control_fn : PyTree → list num → PyTree) (ref : PyTree) (i : nat)
  : Prop :=
  ∀ a b u, same_shape ref a → same_shape ref b →
           (∀ j, j ≠ i → a !! j = b !! j) →
           set_control_fn a u = set_control_fn b u.

(* ================================================================== *)
(** * Small concrete systems *)
(* ================================================================== *)

(** A state with one floating and one integer leaf, over the rationals,
    and a flat vector of its dimension. *)
Definition codec_ref : @PyTree Qc_scalar :=
  [ ([GetAttrKey "qpos"], @FloatLeaf Qc_scalar [0%Qc]);
    ([GetAttrKey "contact"; GetAttrKey "dim"], @IntLeaf Qc_scalar [3%Z]) ].

Definition codec_v : list Qc := [0%Qc; Q2Qc (1 # 2)].

(** A state structure over [Z_scalar] with an integer leaf, a state of
    that shape, and an upstream gradient for it. *)
Definition zref : @PyTree Z_scalar :=
  [ ([GetAttrKey "qpos"], @FloatLeaf Z_scalar [0%Z; 0%Z]);
    ([GetAttrKey "contact"; GetAttrKey "dim"], @IntLeaf Z_scalar [3%Z]);
    ([GetAttrKey "qvel"], @FloatLeaf Z_scalar [0%Z]);
    ([GetAttrKey "ctrl"], @FloatLeaf Z_scalar [0%Z]) ].

Definition zstate : @PyTree Z_scalar :=
  [ ([GetAttrKey "qpos"], @FloatLeaf Z_scalar [5%Z; 7%Z]);
    ([GetAttrKey "contact"; GetAttrKey "dim"], @IntLeaf Z_scalar [1%Z]);
    ([GetAttrKey "qvel"], @FloatLeaf Z_scalar [(-2)%Z]);
    ([GetAttrKey "ctrl"], @FloatLeaf Z_scalar [4%Z]) ].

Definition zgrad : @GradTree Z_scalar :=
  [ ([GetAttrKey "qpos"], @GradLeaf Z_scalar [1%Z; 2%Z]);
    ([GetAttrKey "contact"; GetAttrKey "dim"], @Float0 Z_scalar 1);
    ([GetAttrKey "qvel"], @GradLeaf Z_scalar [3%Z]);
    ([GetAttrKey "ctrl"], @GradLeaf Z_scalar [0%Z]) ].

(** The cache of [zref] for the default target fields, a control of
    one dimension and step size 1. *)
Definition zcache : @FDCache Z_scalar := {|
  unravel_dx := unravel zref;
  sensitivity_mask := [1; 1; 0; 1; 1]%Z;
  inner_idx := [0; 1; 3; 4];
  dx_size := 5;
  num_u_dims := 1;
  eps := 1%Z;
|}.

(** A linear engine on states of that shape, and the control setter that
    overwrites the [ctrl] leaf. *)
Definition toy_dynamics (v : list Z) : list Z :=
  match v with
  | [q1; q2; d; w; c] => [q1 + w; q2 + q1; d; w + c; c]%Z
  | _ => v
  end.

Definition zu : list (@num Z_scalar) := [4%Z].

Definition toy_mjx_step (dx : @PyTree Z_scalar) : @PyTree Z_scalar :=
  unravel dx (toy_dynamics (ravel dx)).

Definition toy_set_control (dx : @PyTree Z_scalar) (u : list Z)
  : @PyTree Z_scalar :=
  (λ pl : list key * leaf,
     if bool_decide (pl.1 = [GetAttrKey "ctrl"])
     then (pl.1, @FloatLeaf Z_scalar u) else pl) <$> dx.

(** A point mass on a line as an engine over [Z_scalar]: one position,
    one velocity, one control; a step adds the velocity to the position,
    the control to the velocity and 1 to the time. *)
Record ToyData := {
  toy_qpos : Z;
  toy_qvel : Z;
  toy_ctrl : Z;
  toy_time : Z;
}.

Definition toy_engine : @Engine Z_scalar := {|
  Data := ToyData;
  Key := unit;
  make_data := λ _, {| toy_qpos := 0; toy_qvel := 0; toy_ctrl := 0;
                        toy_time := 0 |};
  mjx_step := λ _ d,
    {| toy_qpos := toy_qpos d + toy_qvel d;
       toy_qvel := toy_qvel d + toy_ctrl d;
       toy_ctrl := toy_ctrl d;
       toy_time := toy_time d + 1 |}%Z;
  replace_qpos_qvel := λ d (a b : list (@num Z_scalar)),
    {| toy_qpos := hd 0%Z a; toy_qvel := hd 0%Z b; toy_ctrl := toy_ctrl d;
       toy_time := toy_time d |};
  data_ctrl := λ d, [toy_ctrl d];
  data_time := toy_time;
  random_split := λ k, (k, k);
|}.

Definition toy_model : Model := {| nq := 1; nv := 1; nu := 1 |}.

Definition toy_cfg : @Config Z_scalar := {|
  lr := (0%Z : @num Z_scalar);
  seed := 0%Z;
  nsteps := 3;
  epochs := 1;
  batch := 2;
  vis := 0;
  dt := 1%Z;
  path := "point_mass.xml";
  R := [[1%Z]];
  mx := toy_model;
|}.

(** Quadratic costs and the feedback [u = -qpos]. *)
Definition toy_cbs : @Callbacks Z_scalar toy_engine unit := {|
  run_cost := λ _ (d : @Data Z_scalar toy_engine),
    (toy_qpos d * toy_qpos d)%Z : @num Z_scalar;
  terminal_cost := λ _ d, (10 * (toy_qpos d * toy_qpos d))%Z;
  control_cost := λ _ d, (toy_ctrl d * toy_ctrl d)%Z;
  init_gen := λ n _, replicate n [1%Z; 1%Z];
  state_encoder := λ _ d, [toy_qpos d; toy_qvel d];
  state_decoder := λ x, x;
  gen_network := λ _, tt;
  controller := λ _ _ d _,
    ({| toy_qpos := toy_qpos d; toy_qvel := toy_qvel d;
        toy_ctrl := - toy_qpos d; toy_time := toy_time d |},
     [(- toy_qpos d)%Z]);
|}.

Definition toy_ctx : @Context Z_scalar toy_engine unit :=
  {| cfg := toy_cfg; cbs := toy_cbs |}.

Definition toy_x_init : list (@num Z_scalar) := [1%Z; 1%Z].

(** The eigenvalues of a diagonal matrix: its diagonal. *)
Definition diag_eigh_values (M : list (list (@num Z_scalar)))
  : list (@num Z_scalar) :=
  imap (λ i row, default 0%Z (row !! i)) M.

(** Signatures for the callbacks: one that the annotations of
    [Callbacks.__init__] accept, and the one of a [lambda x: ...]. *)
Definition annotated (names : list string) (args : list pytype)
    (ret : pytype) : signature :=
  {| sig_parameters :=
       zip_with (λ n a, {| param_name := n; param_annotation := Some a |})
                names args;
     sig_return_annotation := Some ret |}.

Definition good_callbacks (attr_name : string) : signature :=
  if bool_decide (attr_name = "init_gen")
  then annotated ["batch"; "key"] ["int"; "jnp.ndarray"] "jnp.ndarray"
  else if bool_decide (attr_name = "gen_network")
  then annotated [] [] "eqx.Module"
  else if bool_decide (attr_name = "controller")
  then annotated ["x"; "t"; "net"; "cfg"; "mx"; "dx"]
         ["jnp.ndarray"; "jnp.ndarray"; "eqx.Module"; "Config";
          "mjx.Model"; "mjx.Data"] "jnp.ndarray"
  else annotated ["x"] ["jnp.ndarray"] "jnp.ndarray".

Definition lambda_x : signature :=
  {| sig_parameters := [ {| param_name := "x"; param_annotation := None |} ];
     sig_return_annotation := None |}.

(** Gradient descent on [p * p] over [Z_scalar]: the update is
    [- g / 4], and the optimiser state counts the updates. *)
Definition toy_policy : @Policy Z_scalar Z unit Z := {|
  loss := λ (p : Z) _, (p * p)%Z : @num Z_scalar;
  grad_loss := λ (p : Z) _, (2 * p)%Z;
|}.

Definition toy_partition (m : Z) : Z * unit := (m, tt).

Definition toy_apply_updates (m u : Z) : Z := (m + u)%Z.

Definition toy_optim_update (g : Z) (state : nat) (m : Z) : Z * nat :=
  ((- (g / 4))%Z, S state).

(** The point mass as a state for [simulate_trajectory]: the step
    writes the control and advances the engine. *)
Definition toy_replace_qpos (d : ToyData) (q : list Z) : ToyData :=
  {| toy_qpos := hd 0%Z q; toy_qvel := toy_qvel d; toy_ctrl := toy_ctrl d;
     toy_time := toy_time d |}.

Definition toy_step_fn (d : ToyData) (u : list Z) : ToyData :=
  @mjx_step Z_scalar toy_engine toy_model
    {| toy_qpos := toy_qpos d; toy_qvel := toy_qvel d;
       toy_ctrl := hd 0%Z u; toy_time := toy_time d |}.

Definition toy_feedback (x : list Z) (t : Z) : list Z := [(- hd 0 x)%Z].

(** The point-mass context with a horizon of one, and a controller that
    writes the same control as that of [toy_cbs] but returns another. *)
Definition toy_ctx1 : @Context Z_scalar toy_engine unit :=
  {| cfg := {| lr := lr toy_cfg; seed := seed toy_cfg; nsteps := 1;
               epochs := epochs toy_cfg; batch := batch toy_cfg;
               vis := vis toy_cfg; dt := dt toy_cfg; path := path toy_cfg;
               R := R toy_cfg; mx := mx toy_cfg |};
     cbs := toy_cbs |}.

Definition toy_controller_silent : unit → Model → ToyData → unit
                                   → ToyData * list Z :=
  λ _ _ d _,
    ({| toy_qpos := toy_qpos d; toy_qvel := toy_qvel d;
        toy_ctrl := - toy_qpos d; toy_time := toy_time d |},
     [0%Z]).

(** A state with a sensor leaf, which is no target field: the sensor
    doubles the position, the position moves by the control. *)
Definition sref : @PyTree Z_scalar :=
  [ ([GetAttrKey "qpos"], @FloatLeaf Z_scalar [0%Z]);
    ([GetAttrKey "sensordata"], @FloatLeaf Z_scalar [0%Z]);
    ([GetAttrKey "ctrl"], @FloatLeaf Z_scalar [0%Z]) ].

Definition sstate : @PyTree Z_scalar :=
  [ ([GetAttrKey "qpos"], @FloatLeaf Z_scalar [3%Z]);
    ([GetAttrKey "sensordata"], @FloatLeaf Z_scalar [6%Z]);
    ([GetAttrKey "ctrl"], @FloatLeaf Z_scalar [1%Z]) ].

(** The upstream gradient of a cost that reads the sensor only. *)
Definition sgrad : @GradTree Z_scalar :=
  [ ([GetAttrKey "qpos"], @GradLeaf Z_scalar [0%Z]);
    ([GetAttrKey "sensordata"], @GradLeaf Z_scalar [5%Z]);
    ([GetAttrKey "ctrl"], @GradLeaf Z_scalar [0%Z]) ].

Definition scache : @FDCache Z_scalar := {|
  unravel_dx := unravel sref;
  sensitivity_mask := [1; 0; 1]%Z;
  inner_idx := [0; 2];
  dx_size := 3;
  num_u_dims := 1;
  eps := 1%Z;
|}.

Definition sensor_dynamics (v : list Z) : list Z :=
  match v with
  | [q; s; c] => [q + c; 2 * (q + c); c]%Z
  | _ => v
  end.

Definition sensor_mjx_step (dx : @PyTree Z_scalar) : @PyTree Z_scalar :=
  unravel dx (sensor_dynamics (ravel dx)).

(** A state over the floating-point numbers with an integer leaf and a
    sensor leaf, which is no target field; a state of that shape; two
    upstream gradients for it, one finite and one with an infinite sensor
    entry; and the cache of [xref] for the default target fields, a
    control of one dimension and step size 1. *)
Definition xref : @PyTree float_scalar :=
  [ ([GetAttrKey "qpos"], @FloatLeaf float_scalar [fin 0]);
    ([GetAttrKey "contact"; GetAttrKey "dim"], @IntLeaf float_scalar [0%Z]);
    ([GetAttrKey "sensordata"], @FloatLeaf float_scalar [fin 0]);
    ([GetAttrKey "ctrl"], @FloatLeaf float_scalar [fin 0]) ].

Definition xstate : @PyTree float_scalar :=
  [ ([GetAttrKey "qpos"], @FloatLeaf float_scalar [fin 3]);
    ([GetAttrKey "contact"; GetAttrKey "dim"], @IntLeaf float_scalar [2%Z]);
    ([GetAttrKey "sensordata"], @FloatLeaf float_scalar [fin 6]);
    ([GetAttrKey "ctrl"], @FloatLeaf float_scalar [fin 1]) ].



Definition xu : list (@num float_scalar) := [fin 4].

Definition xcache : @FDCache float_scalar := {|
  unravel_dx := unravel xref;
  sensitivity_mask := [fin 1; fin 0; fin 0; fin 1];
  inner_idx := [0; 3];
  dx_size := 4;
  num_u_dims := 1;
  eps := fin 1;
|}.

(** An engine on states of that shape: the position moves by the
    control and the sensor reads twice the new position; and the control
    setter that overwrites the [ctrl] leaf. *)
Definition x_dynamics (v : list xfloat) : list xfloat :=
  match v with
  | [q; d; s; c] => [xadd q c; d; xmul (fin 2) (xadd q c); c]
  | _ => v
  end.

Definition x_mjx_step (dx : @PyTree float_scalar) : @PyTree float_scalar :=
  unravel dx (x_dynamics (ravel dx)).

Definition x_set_control (dx : @PyTree float_scalar) (u : list xfloat)
  : @PyTree float_scalar :=
  (λ pl : list key * leaf,
     if bool_decide (pl.1 = [GetAttrKey "ctrl"])
     then (pl.1, @FloatLeaf float_scalar u) else pl) <$> dx.

#[global] Instance Z_zero_laws : ScalarZeroLaws Z_scalar.
Proof.
  split; simpl.
  - intros x. lia.
  - intros e _. apply Zdiv_0_l.
Qed.

#[global] Instance Qc_zero_laws : ScalarZeroLaws Qc_scalar.
Proof.
  split; simpl.
  - apply Qcmult_0_r.
  - intros e _. rewrite /Qcdiv. apply Qcmult_0_l.
Qed.

(* ================================================================== *)
(** * Results *)
(* ================================================================== *)

#[global] Instance Z_laws : ScalarLaws Z_scalar.
Proof.
  split; simpl; intros; lia.
Qed.

Lemma Qred_inject_Z (z : Z) : Qred (inject_Z z) = inject_Z z.
Proof. apply Qred_identity. simpl. apply Z.gcd_1_r. Qed.

#[global] Instance Qc_laws : ScalarLaws Qc_scalar.
Proof.
  split; simpl.
  - apply Qcplus_0_l.
  - apply Qcplus_0_r.
  - apply Qcmult_0_l.
  - reflexivity.
  - intros z Hz. apply Qc_is_canon. simpl.
    rewrite !Qred_correct inject_Z_plus. reflexivity.
  - intros z. rewrite /Qc_trunc /= Qred_inject_Z /=. apply Z.quot_1_r.
Qed.

(** Exact arithmetic has the laws that floating-point arithmetic keeps. *)
#[global] Instance exact_float_laws {F : Scalar}
    `{!ScalarLaws F, !ScalarZeroLaws F} : FloatLaws F.
Proof.
  split.
  - apply sadd_0_r.
  - apply smul_0_l.
  - apply smul_0_r.
  - by rewrite -of_int_0 to_of_int.
Qed.

#[global] Instance float_laws : FloatLaws float_scalar.
Proof.
  split; simpl.
  - intros x. destruct x as [q| | |]; simpl; [|reflexivity..].
    f_equal. apply Qcplus_0_r.
  - reflexivity.
  - reflexivity.
  - reflexivity.
Qed.

(** Zero annihilates a finite float, a finite float minus itself is
    zero, zero divided by a finite float other than zero is zero, and an
    integer of [int32] comes back unchanged from the conversion to a
    float and back. *)
Lemma float_smul_0_fin (q : Qc) : xmul (fin 0) (Fin q) = fin 0.
Proof. rewrite /fin /=. f_equal. apply Qcmult_0_l. Qed.

Lemma float_ssub_fin (q : Qc) : xsub (Fin q) (Fin q) = fin 0.
Proof. rewrite /fin /xsub /=. f_equal. apply Qcplus_opp_r. Qed.

Lemma float_sdiv_0_fin (q : Qc) :
  Qc_sgn q ≠ 0%Z → xdiv (fin 0) (Fin q) = fin 0.
Proof.
  intros Hq. rewrite /fin /=.
  destruct (Qc_sgn q); [done| |]; f_equal; apply Qcmult_0_l.
Qed.

Lemma float_int32_exact (z : Z) :
  (int32_min ≤ z ≤ int32_max)%Z → xto_int (fin z) = z.
Proof.
  intros Hz. rewrite /xto_int /fin /Qc_trunc /= Qred_inject_Z /= Z.quot_1_r.
  lia.
Qed.

(** So a state over the floats whose integer entries are of [int32]
    converts exactly. *)
Lemma int32_exact_on_discrete (s : @PyTree float_scalar) :
  Forall (λ pl : list key * leaf,
            match pl.2 with
            | FloatLeaf _ => True
            | IntLeaf zs => Forall (λ z, (int32_min ≤ z ≤ int32_max)%Z) zs
            end) s →
  exact_on_discrete s.
Proof.
  intros H. apply (Forall_impl _ _ _ H). intros [p [xs|zs]]; simpl; [done|].
  intros Hzs. apply (Forall_impl _ _ _ Hzs). exact float_int32_exact.
Qed.

(** ** Lists *)

Lemma elem_of_concat {A} (x : A) (ls : list (list A)) :
  x ∈ concat ls ↔ ∃ l, x ∈ l ∧ l ∈ ls.
Proof.
  induction ls as [|l ls IH]; simpl.
  - split; [by intros ?%elem_of_nil | by intros [? [_ ?%elem_of_nil]]].
  - rewrite elem_of_app IH. split.
    + intros [H | [l' [H1 H2]]].
      * exists l. split; [done | left].
      * exists l'. split; [done | by right].
    + intros [l' [H1 H2]]. apply elem_of_cons in H2 as [-> | H2].
      * by left.
      * right. by exists l'.
Qed.

(** ** The codec *)

Section CodecFacts.
Context {F : Scalar}.

Lemma length_leaf_ravel (lf : leaf) : length (leaf_ravel lf) = leaf_size lf.
Proof. destruct lf; simpl; [done | by rewrite length_fmap]. Qed.

Lemma ravel_cons (p : list key) (lf : leaf) (tree : PyTree) :
  ravel ((p, lf) :: tree) = leaf_ravel lf ++ ravel tree.
Proof. reflexivity. Qed.

Lemma unravel_cons (p : list key) (lf : leaf) (ref : PyTree)
    (arr : list num) :
  unravel ((p, lf) :: ref) arr
  = (p, leaf_unravel lf (take (leaf_size lf) arr))
      :: unravel ref (drop (leaf_size lf) arr).
Proof. reflexivity. Qed.

Lemma length_ravel (tree : PyTree) :
  length (ravel tree) = sum_list ((λ pl, leaf_size pl.2) <$> tree).
Proof.
  induction tree as [|[p lf] tree IH]; [done|].
  rewrite ravel_cons length_app length_leaf_ravel IH. done.
Qed.

Lemma length_discrete_mask (tree : PyTree) :
  length (discrete_mask tree) = length (ravel tree).
Proof.
  induction tree as [|[p lf] tree IH]; [done|].
  rewrite ravel_cons /discrete_mask /= !length_app length_replicate.
  rewrite length_leaf_ravel. f_equal. exact IH.
Qed.

Lemma same_shape_length_ravel (a b : PyTree) :
  same_shape a b → length (ravel a) = length (ravel b).
Proof.
  induction 1 as [|[p x] [q y] a b [_ [_ Hsz]] _ IH]; [done|].
  rewrite !ravel_cons !length_app !length_leaf_ravel. simpl in Hsz. lia.
Qed.

(** [unravel] after [ravel] gives every leaf back, with its dtype, for a
    state whose integer entries convert exactly. *)
Lemma unravel_ravel_exact (ref s : PyTree) :
  same_shape ref s → exact_on_discrete s → unravel ref (ravel s) = s.
Proof.
  induction 1 as [|[p r] [q lf] ref s [Hp [Hd Hsz]] _ IH]; [done|].
  intros [Hlf Hs]%Forall_cons_1.
  simpl in *. subst q. rewrite ravel_cons.
  rewrite take_app_length' ?drop_app_length' ?length_leaf_ravel //.
  rewrite IH //. do 2 f_equal. clear IH Hs Hsz.
  destruct r as [r1|r2], lf as [l1|l2]; simpl in *; try done. f_equal.
  induction Hlf as [|z l Hz _ IHz]; [done|].
  csimpl. by rewrite Hz IHz.
Qed.

Lemma exact_without_discrete (s : PyTree) :
  Forall (λ pl, is_discrete pl.2 = false) s → exact_on_discrete s.
Proof.
  intros H. apply (Forall_impl _ _ _ H). intros [p lf] Hlf. by destruct lf.
Qed.

Lemma same_shape_discrete (ref s : PyTree) :
  same_shape ref s → Forall (λ pl, is_discrete pl.2 = false) ref →
  Forall (λ pl, is_discrete pl.2 = false) s.
Proof.
  induction 1 as [|[p r] [q lf] ref s [_ [Hd _]] _ IH]; [done|].
  intros [Hr Href]%Forall_cons_1. constructor; [|by apply IH].
  simpl in *. congruence.
Qed.

Lemma leaf_ravel_unravel (r : leaf) (chunk : list num) :
  (is_discrete r = true → Forall (λ x, of_int (to_int x) = x) chunk) →
  leaf_ravel (leaf_unravel r chunk) = chunk.
Proof.
  destruct r; simpl; [done|]. intros H. specialize (H eq_refl).
  induction H as [|x l Hx _ IH]; [done|].
  csimpl. rewrite Hx. by f_equal.
Qed.

(** [ravel] after [unravel] gives a vector of the right length back when
    its entries at integer leaves are values of integers. *)
Lemma ravel_unravel (ref : PyTree) (v : list num) :
  length v = length (ravel ref) → integral_on_discrete ref v →
  ravel (unravel ref v) = v.
Proof.
  revert v. induction ref as [|[p r] ref IH]; intros v Hlen Hint.
  - by destruct v.
  - rewrite unravel_cons ravel_cons.
    rewrite ravel_cons length_app length_leaf_ravel in Hlen.
    rewrite leaf_ravel_unravel.
    + intros Hd. apply Forall_lookup. intros k x Hx.
      apply lookup_take_Some in Hx as [Hx Hk].
      apply (Hint k); [|done].
      rewrite /discrete_mask /= lookup_app_l ?length_replicate //.
      rewrite lookup_replicate_2 //. by rewrite Hd.
    + rewrite IH; [rewrite length_drop; lia | | apply take_drop].
      intros k x Hk Hx. rewrite lookup_drop in Hx.
      apply (Hint (leaf_size r + k)); [|done].
      rewrite /discrete_mask /= lookup_app_r length_replicate; [lia|].
      by replace (leaf_size r + k - leaf_size r) with k by lia.
Qed.

Lemma integral_without_discrete (ref : PyTree) (v : list num) :
  Forall (λ pl, is_discrete pl.2 = false) ref → integral_on_discrete ref v.
Proof.
  intros Hall k x Hk _. exfalso.
  apply list_elem_of_lookup_2 in Hk.
  rewrite /discrete_mask in Hk. apply elem_of_concat in Hk as [l [Hk Hl]].
  apply list_elem_of_fmap in Hl as [pl [-> Hpl]].
  rewrite Forall_forall in Hall. specialize (Hall _ Hpl).
  apply elem_of_replicate in Hk as [Hk _]. congruence.
Qed.
End CodecFacts.

(** C4 (amended). For a reference state [ref] and the codec
    [ravel_pytree ref] built from it, with no law assumed of the scalars
    or of their conversions: [unravel (ravel s) = s], each leaf with its
    dtype and its values, for every state [s] of the shape of [ref] whose
    integer entries come back unchanged from the conversion to the
    floating dtype and back; [ravel (unravel v) = v] for every flat
    vector [v] of the right dimension whose entries at the positions of
    integer leaves come back unchanged from the conversion to the integer
    dtype and back (they are integer-valued and within the range of the
    dtype); and when the state has no integer leaf, both hold of every
    state of the shape of [ref] and of every [v] of the right
    dimension. *)
Theorem codec_round_trip {F : Scalar} (ref : PyTree) :
  (∀ s, same_shape ref s → exact_on_discrete s →
        (ravel_pytree ref).2 (ravel_pytree s).1 = s) ∧
  (∀ v, length v = length (ravel_pytree ref).1 →
        integral_on_discrete ref v →
        (ravel_pytree ((ravel_pytree ref).2 v)).1 = v) ∧
  (Forall (λ pl, is_discrete pl.2 = false) ref →
   (∀ s, same_shape ref s → (ravel_pytree ref).2 (ravel_pytree s).1 = s) ∧
   (∀ v, length v = length (ravel_pytree ref).1 →
         (ravel_pytree ((ravel_pytree ref).2 v)).1 = v)).
Proof.
  rewrite /ravel_pytree /=. split; [|split].
  - intros s Hs Hex. by apply unravel_ravel_exact.
  - intros v Hlen Hint. by apply ravel_unravel.
  - intros Hfloat. split.
    + intros s Hs. apply unravel_ravel_exact; [done|].
      apply exact_without_discrete. exact (same_shape_discrete _ _ Hs Hfloat).
    + intros v Hlen. apply ravel_unravel; [done|].
      by apply integral_without_discrete.
Qed.

Lemma codec_round_trip_witness :
  (ravel_pytree xref).2 (ravel_pytree xstate).1 = xstate ∧
  (ravel_pytree ((ravel_pytree xref).2 [fin 1; fin 2; fin 3; fin 4])).1
  = [fin 1; fin 2; fin 3; fin 4].
Proof.
  destruct (@codec_round_trip float_scalar xref) as [H1 [H2 _]].
  split.
  - apply H1; repeat constructor.
  - apply H2; [reflexivity|].
    intros k x Hk Hx. destruct k as [|[|k]]; [done| |].
    + injection Hx as <-. reflexivity.
    + destruct k as [|[|k]]; done.
Defined.

(** C4, as stated, fails: the state [codec_ref] has an integer leaf, and
    the vector [codec_v] of the right dimension holds 1/2 at its position;
    [unravel] converts it to the integer 0, and [ravel] gives 0 back. The
    scalars are the rationals, where every law of [ScalarLaws] holds. *)
Lemma ravel_unravel_not_identity :
  length codec_v = length (ravel_pytree codec_ref).1 ∧
  (ravel_pytree ((ravel_pytree codec_ref).2 codec_v)).1 ≠ codec_v.
Proof.
  split; [reflexivity|].
  vm_compute. intros H. discriminate H.
Qed.

(** ** Index updates *)

Section AtSet.
Context {A : Type}.
Implicit Types (base : list A) (idxs : list nat).

Lemma length_at_set base idxs (v : A) :
  length (at_set base idxs v) = length base.
Proof.
  rewrite /at_set. revert base.
  induction idxs as [|i idxs IH]; intros base; [done|].
  by rewrite /= IH length_insert.
Qed.

Lemma lookup_at_set_in base idxs (v : A) (k : nat) :
  k ∈ idxs → k < length base → at_set base idxs v !! k = Some v.
Proof.
  rewrite /at_set. revert base.
  induction idxs as [|i idxs IH]; intros base Hin Hk.
  - by apply elem_of_nil in Hin.
  - simpl. destruct (decide (k ∈ idxs)) as [Hk'|Hk'].
    + apply IH; [done | by rewrite length_insert].
    + apply elem_of_cons in Hin as [->|]; [|done].
      clear IH. assert (<[i:=v]> base !! i = Some v) as Hi
        by by apply list_lookup_insert_eq.
      revert Hi Hk'. generalize (<[i:=v]> base). clear Hk.
      induction idxs as [|j idxs IH]; intros l Hi Hni; [done|].
      simpl. apply IH.
      * rewrite list_lookup_insert_ne //. intros ->. apply Hni. left.
      * intros ?. apply Hni. by right.
Qed.

Lemma lookup_at_set_notin base idxs (v : A) (k : nat) :
  k ∉ idxs → at_set base idxs v !! k = base !! k.
Proof.
  rewrite /at_set. revert base.
  induction idxs as [|i idxs IH]; intros base Hni; [done|].
  simpl. rewrite IH.
  - intros ?. apply Hni. by right.
  - rewrite list_lookup_insert_ne //. intros ->. apply Hni. left.
Qed.

Lemma length_at_set_rows base idxs (rows : list A) :
  length (at_set_rows base idxs rows) = length base.
Proof.
  rewrite /at_set_rows. revert base. generalize (zip idxs rows).
  induction l as [|[i r] l IH]; intros base; [done|].
  by rewrite /= IH length_insert.
Qed.


End AtSet.

(** ** The layout that [build_fd_cache] computes *)

Section CacheFacts.
Context {F : Scalar}.

Local Abbreviation sizes tree :=
  ((λ pl : list key * leaf, leaf_size pl.2) <$> tree).

Lemma ravel_app (a b : PyTree) : ravel (a ++ b) = ravel a ++ ravel b.
Proof. by rewrite /ravel fmap_app concat_app. Qed.

Lemma cumsum_from_lookup (acc : nat) (szs : list nat) (i : nat) :
  i < length szs →
  cumsum_from acc szs !! i = Some (acc + sum_list (take (S i) szs)).
Proof.
  revert acc i. induction szs as [|n szs IH]; intros acc i Hi.
  - simpl in Hi. lia.
  - destruct i as [|i].
    + simpl. f_equal. lia.
    + simpl in Hi. rewrite /= IH; [lia|]. f_equal. simpl. lia.
Qed.

Lemma leaf_start_S (tree : PyTree) (i : nat) (p : list key) (lf : leaf) :
  tree !! i = Some (p, lf) →
  leaf_start tree (S i) = leaf_start tree i + leaf_size lf.
Proof.
  intros H. rewrite /leaf_start (take_S_r _ _ _ H) fmap_app sum_list_with_app /=.
  lia.
Qed.

Lemma leaf_start_cons (x : list key * leaf) (tree : PyTree) (i : nat) :
  leaf_start (x :: tree) (S i) = leaf_size x.2 + leaf_start tree i.
Proof. reflexivity. Qed.

Lemma leaf_index_range_spec (tree : PyTree) (i : nat) (p : list key)
    (lf : leaf) :
  tree !! i = Some (p, lf) →
  leaf_index_range (cumsum (sizes tree)) i
  = seq (leaf_start tree i) (leaf_size lf).
Proof.
  intros H. pose proof (lookup_lt_Some _ _ _ H) as Hlt.
  assert (∀ j, j < length tree →
               default 0 (cumsum (sizes tree) !! j) = leaf_start tree (S j))
    as Hidx.
  { intros j Hj. rewrite /cumsum cumsum_from_lookup ?length_fmap //.
    by rewrite /leaf_start fmap_take. }
  rewrite /leaf_index_range /arange (Hidx i) // (leaf_start_S _ _ _ _ H).
  destruct i as [|i].
  - simpl. f_equal. lia.
  - replace (S i =? 0) with false by done.
    replace (S i - 1) with i by lia.
    rewrite (Hidx i); [lia|]. f_equal. lia.
Qed.

Lemma leaf_start_length_ravel (pre suf : PyTree) :
  leaf_start (pre ++ suf) (length pre) = length (ravel pre).
Proof. by rewrite /leaf_start take_app_length length_ravel. Qed.

(** The index array that [build_fd_cache] concatenates is the one-pass
    enumeration [inner_from]. *)
Lemma concat_ranges_inner_from (tf : gset string) (pre suf : PyTree) :
  concat (leaf_index_range (cumsum (sizes (pre ++ suf)))
            <$> target_leaves_from (length pre) tf suf)
  = inner_from (length (ravel pre)) tf suf.
Proof.
  revert pre. induction suf as [|[p lf] suf IH]; intros pre; [done|].
  specialize (IH (pre ++ [(p, lf)])).
  rewrite -app_assoc /= in IH.
  rewrite length_app /= Nat.add_1_r in IH.
  rewrite ravel_app length_app /ravel /= app_nil_r length_leaf_ravel in IH.
  simpl. destruct (name_matches tf p).
  - rewrite fmap_cons /= IH. f_equal.
    rewrite (leaf_index_range_spec _ _ p lf).
    + by rewrite lookup_app_r // Nat.sub_diag.
    + by rewrite leaf_start_length_ravel.
  - by rewrite IH.
Qed.

Lemma inner_from_bounds (off : nat) (tf : gset string) (tree : PyTree)
    (k : nat) :
  k ∈ inner_from off tf tree → off ≤ k < off + length (ravel tree).
Proof.
  revert off. induction tree as [|[p lf] tree IH]; intros off Hk.
  - by apply elem_of_nil in Hk.
  - rewrite ravel_cons length_app length_leaf_ravel.
    simpl in Hk. apply elem_of_app in Hk as [Hk|Hk].
    + destruct (name_matches tf p); [|by apply elem_of_nil in Hk].
      apply elem_of_seq in Hk. lia.
    + apply IH in Hk. lia.
Qed.

Lemma NoDup_inner_from (off : nat) (tf : gset string) (tree : PyTree) :
  NoDup (inner_from off tf tree).
Proof.
  revert off. induction tree as [|[p lf] tree IH]; intros off.
  - constructor.
  - simpl. apply NoDup_app. split; [|split].
    + destruct (name_matches tf p); [apply NoDup_seq | constructor].
    + intros k Hk Hk'. apply inner_from_bounds in Hk'.
      destruct (name_matches tf p); [|by apply elem_of_nil in Hk].
      apply elem_of_seq in Hk. lia.
    + apply IH.
Qed.

Lemma name_matches_spec (tf : gset string) (path : list key) :
  name_matches tf path = true ↔ names_target tf path.
Proof.
  rewrite /names_target. induction path as [|level path IH].
  - split; [done | by intros (? & ? & ?%elem_of_nil & _)].
  - simpl. rewrite orb_true_iff IH. split.
    + intros [H|(l & n & Hl & Hn & Hin)].
      * destruct (key_name level) as [name|] eqn:Hname; [|done].
        apply bool_decide_eq_true in H.
        exists level, name. split; [left | done].
      * exists l, n. split; [by right | done].
    + intros (l & n & Hl & Hn & Hin).
      apply elem_of_cons in Hl as [->|Hl].
      * left. rewrite Hn. by apply bool_decide_eq_true.
      * right. by exists l, n.
Qed.

Lemma elem_of_inner_from (off : nat) (tf : gset string) (tree : PyTree)
    (k : nat) :
  k ∈ inner_from off tf tree ↔
  ∃ i p lf, tree !! i = Some (p, lf) ∧ name_matches tf p = true ∧
            off + leaf_start tree i ≤ k
            ∧ k < off + leaf_start tree i + leaf_size lf.
Proof.
  revert off. induction tree as [|[p lf] tree IH]; intros off.
  - split; [by intros ?%elem_of_nil | by intros (? & ? & ? & ? & _)].
  - simpl. rewrite elem_of_app IH. split.
    + intros [Hk|(i & q & l & Hi & Hm & Hlo & Hhi)].
      * destruct (name_matches tf p) eqn:Hm; [|by apply elem_of_nil in Hk].
        apply elem_of_seq in Hk.
        exists 0, p, lf. rewrite /leaf_start /=. repeat split; [done|lia..].
      * exists (S i), q, l. rewrite leaf_start_cons /=.
        repeat split; [done | done | lia..].
    + intros (i & q & l & Hi & Hm & Hlo & Hhi). destruct i as [|i].
      * injection Hi as -> ->. rewrite /leaf_start /= in Hlo Hhi.
        left. rewrite Hm. apply elem_of_seq. lia.
      * right. rewrite leaf_start_cons /= in Hlo Hhi.
        exists i, q, l. repeat split; [done | done | lia..].
Qed.

(** What a successful build holds. *)
Lemma build_fd_cache_Ok (dx_ref : PyTree) (u_ref : list num)
    (tf : option (gset string)) (e : num) (c : FDCache) :
  build_fd_cache dx_ref u_ref tf e = Ok c →
  inner_idx c = inner_from 0 (default default_target_fields tf) dx_ref ∧
  sensitivity_mask c
    = at_set (zeros (length (ravel dx_ref))) (inner_idx c) s1 ∧
  unravel_dx c = unravel dx_ref ∧
  dx_size c = length (ravel dx_ref) ∧
  num_u_dims c = length u_ref ∧
  eps c = e.
Proof.
  rewrite /build_fd_cache /ravel_pytree /np_concatenate.
  pose proof (concat_ranges_inner_from (default default_target_fields tf)
                [] dx_ref) as Hc.
  simpl in Hc. rewrite /idx_target_state.
  destruct (leaf_index_range _ <$> target_leaves_from 0 _ dx_ref)
    as [|r rs] eqn:Hr; [done|].
  simpl. intros [= <-]. simpl. by rewrite -Hc.
Qed.

(** The build raises exactly when no leaf names a target field. *)
Lemma target_leaves_from_nil (i : nat) (tf : gset string) (tree : PyTree) :
  target_leaves_from i tf tree = [] ↔
  Forall (λ pl, name_matches tf pl.1 = false) tree.
Proof.
  revert i. induction tree as [|[p lf] tree IH]; intros i; simpl.
  - split; [constructor | done].
  - destruct (name_matches tf p) eqn:Hm.
    + split; [done|]. intros H. apply Forall_cons in H as [H _].
      simpl in H. congruence.
    + rewrite IH. split; [by constructor|].
      by intros [_ ?]%Forall_cons.
Qed.

Lemma build_fd_cache_Raise (dx_ref : PyTree) (u_ref : list num)
    (tf : option (gset string)) (e : num) :
  Forall (λ pl, name_matches (default default_target_fields tf) pl.1 = false)
         dx_ref →
  build_fd_cache dx_ref u_ref tf e = Raise ValueError.
Proof.
  intros H. rewrite /build_fd_cache /ravel_pytree /idx_target_state.
  apply (target_leaves_from_nil 0) in H. by rewrite H.
Qed.

Lemma build_fd_cache_succeeds (dx_ref : PyTree) (u_ref : list num)
    (tf : option (gset string)) (e : num) :
  Exists (λ pl, name_matches (default default_target_fields tf) pl.1 = true)
         dx_ref →
  ∃ c, build_fd_cache dx_ref u_ref tf e = Ok c.
Proof.
  intros H. rewrite /build_fd_cache /ravel_pytree /idx_target_state.
  destruct (target_leaves_from 0 _ dx_ref) as [|i l] eqn:Hl.
  - apply target_leaves_from_nil in Hl. apply Exists_exists in H
      as [pl [Hin Hm]]. rewrite Forall_forall in Hl.
    specialize (Hl _ Hin). simpl in Hl. congruence.
  - simpl. eauto.
Qed.
End CacheFacts.

(** ** The sensitivity mask *)

Section MaskFacts.
Context {F : Scalar}.

Lemma mask_indicator (idxs : list nat) (n : nat) :
  at_set (zeros n) idxs s1 = indicator idxs 0 n.
Proof.
  apply list_eq. intros k. rewrite /indicator list_lookup_fmap.
  destruct (decide (k < n)) as [Hk|Hk].
  - rewrite lookup_seq_lt //=. case_bool_decide as Hin.
    + apply lookup_at_set_in; [done | by rewrite length_replicate].
    + rewrite lookup_at_set_notin // /zeros lookup_replicate_2 //.
  - rewrite lookup_seq_ge /=; [lia|].
    apply lookup_ge_None. rewrite length_at_set length_replicate. lia.
Qed.

Lemma vsum_indicator `{!ScalarLaws F} (idxs : list nat) (a n : nat) :
  vsum (indicator idxs a n)
  = num_of_nat (length (filter (.∈ idxs) (seq a n))).
Proof.
  rewrite /indicator /num_of_nat. revert a.
  induction n as [|n IH]; intros a.
  - simpl. by rewrite of_int_0.
  - rewrite /= filter_cons. specialize (IH (S a)).
    rewrite /vsum in IH. rewrite /vsum /= IH.
    case_bool_decide as Hin.
    + rewrite decide_True //=. rewrite -of_int_succ; [lia|].
      f_equal. lia.
    + rewrite decide_False //. apply sadd_0_l.
Qed.

Lemma length_filter_elem_of (idxs : list nat) (n : nat) :
  NoDup idxs → (∀ k, k ∈ idxs → k < n) →
  length (filter (.∈ idxs) (seq 0 n)) = length idxs.
Proof.
  intros Hnd Hlt. apply Permutation_length, NoDup_Permutation.
  - apply NoDup_filter, NoDup_seq.
  - done.
  - intros k. rewrite list_elem_of_filter elem_of_seq. split.
    + by intros [? _].
    + intros Hk. split; [done|]. specialize (Hlt _ Hk). lia.
Qed.
End MaskFacts.

(** C5. For every cache [c] that [build_fd_cache] returns for a reference
    state [dx_ref]: the sum of [sensitivity_mask] is the length of
    [inner_idx]; the mask has the length of the flattened state; its entry
    at a position [k] is 1 when [k] is listed in [inner_idx] and 0 when it
    is not; [inner_idx] lists no position twice; and a position is listed
    in [inner_idx] exactly when it falls within a leaf whose path has a
    level named by a requested target field. *)
Theorem build_fd_cache_mask_coverage {F : Scalar} `{!ScalarLaws F}
    (dx_ref : PyTree) (u_ref : list num) (target_fields : option (gset string))
    (e : num) (c : FDCache) :
  build_fd_cache dx_ref u_ref target_fields e = Ok c →
  vsum (sensitivity_mask c) = num_of_nat (length (inner_idx c)) ∧
  length (sensitivity_mask c) = length (ravel dx_ref) ∧
  (∀ k, k < length (ravel dx_ref) →
        sensitivity_mask c !! k
        = Some (if bool_decide (k ∈ inner_idx c) then s1 else s0)) ∧
  NoDup (inner_idx c) ∧
  (∀ k, k ∈ inner_idx c ↔
        ∃ i path lf,
          dx_ref !! i = Some (path, lf) ∧
          names_target (default default_target_fields target_fields) path ∧
          leaf_start dx_ref i ≤ k ∧ k < leaf_start dx_ref i + leaf_size lf).
Proof.
  intros Hb. apply build_fd_cache_Ok in Hb as (Hi & Hm & _).
  assert (NoDup (inner_idx c)) as Hnd by (rewrite Hi; apply NoDup_inner_from).
  assert (∀ k, k ∈ inner_idx c → k < length (ravel dx_ref)) as Hlt.
  { intros k. rewrite Hi. intros Hk%inner_from_bounds. lia. }
  rewrite Hm mask_indicator. repeat split.
  - by rewrite vsum_indicator length_filter_elem_of.
  - by rewrite /indicator length_fmap length_seq.
  - intros k Hk. by rewrite /indicator list_lookup_fmap lookup_seq_lt.
  - done.
  - rewrite Hi elem_of_inner_from. intros (i & p & lf & H1 & H2 & H3 & H4).
    exists i, p, lf. by rewrite -name_matches_spec.
  - rewrite Hi elem_of_inner_from. intros (i & p & lf & H1 & H2 & H3 & H4).
    exists i, p, lf. by rewrite name_matches_spec.
Qed.

Lemma build_fd_cache_mask_coverage_witness :
  build_fd_cache zref [0%Z] None 1%Z = Ok zcache ∧
  vsum (sensitivity_mask zcache) = num_of_nat (length (inner_idx zcache)).
Proof.
  assert (build_fd_cache zref [0%Z] None 1%Z = Ok zcache) as H
    by (vm_compute; reflexivity).
  split; [exact H|].
  exact (proj1 (@build_fd_cache_mask_coverage Z_scalar Z_laws
                  zref [0%Z] None 1%Z zcache H)).
Defined.

(** ** Requested names that match no leaf *)

Section Unmatched.
Context {F : Scalar}.

Lemma name_matches_union_unmatched (tf : gset string) (name : string)
    (path : list key) :
  Forall (λ level, key_name level ≠ Some name) path →
  name_matches (tf ∪ {[name]}) path = name_matches tf path.
Proof.
  induction 1 as [|level path Hl _ IH]; [done|].
  simpl. rewrite IH. f_equal.
  destruct (key_name level) as [n|] eqn:Hn; [|done].
  apply bool_decide_ext. rewrite elem_of_union elem_of_singleton.
  split; [|by left]. intros [?| ->]; [done|]. by destruct Hl.
Qed.

Lemma target_leaves_from_ext (i : nat) (tf tf' : gset string)
    (tree : PyTree) :
  Forall (λ pl, name_matches tf pl.1 = name_matches tf' pl.1) tree →
  target_leaves_from i tf tree = target_leaves_from i tf' tree.
Proof.
  intros H. revert i. induction H as [|[p lf] tree Hp _ IH]; intros i.
  - done.
  - simpl in *. by rewrite Hp !IH.
Qed.

(** A name that no level of any path carries changes nothing: the build
    with it and the build without it give the same outcome. *)
Lemma unmatched_name_ignored (dx_ref : PyTree) (u_ref : list num)
    (tf : gset string) (name : string) (e : num) :
  Forall (λ pl, Forall (λ level, key_name level ≠ Some name) pl.1) dx_ref →
  build_fd_cache dx_ref u_ref (Some (tf ∪ {[name]})) e
  = build_fd_cache dx_ref u_ref (Some tf) e.
Proof.
  intros H. rewrite /build_fd_cache /idx_target_state /=.
  rewrite (target_leaves_from_ext 0 (tf ∪ {[name]}) tf) //.
  eapply Forall_impl; [exact H|]. intros [p lf] Hp.
  by apply name_matches_union_unmatched.
Qed.
End Unmatched.

(** C7, at the input where the code departs from it: every requested
    name is unmatched (the state [zref] has no field "foo"), and the build
    raises the [ValueError] of [np.concatenate] on an empty list. *)
Theorem build_fd_cache_all_unmatched_raises :
  build_fd_cache zref [0%Z] (Some {[ "foo" ]}) 1%Z = Raise ValueError.
Proof.
  apply build_fd_cache_Raise.
  repeat constructor.
Qed.

(** ** Vectors *)

Section VectorFacts.
Context {F : Scalar}.

Lemma forward_difference_eq (mask perturbed base : list num) (e : num) :
  vdivs (vmul mask (vsub perturbed base)) e
  = forward_difference mask perturbed base e.
Proof.
  rewrite /vdivs /vmul /vsub /forward_difference.
  revert perturbed base.
  induction mask as [|m mask IH]; intros perturbed base; [done|].
  destruct perturbed as [|x perturbed]; [done|].
  destruct base as [|b base]; [done|].
  csimpl. f_equal. apply IH.
Qed.

Lemma lookup_forward_difference (mask perturbed base : list num) (e : num)
    (j : nat) (m x b : num) :
  mask !! j = Some m → perturbed !! j = Some x → base !! j = Some b →
  forward_difference mask perturbed base e !! j
  = Some (sdiv (smul m (ssub x b)) e).
Proof.
  intros Hm Hx Hb. rewrite /forward_difference list_lookup_fmap.
  by rewrite !lookup_zip_with Hm Hx Hb.
Qed.

Lemma length_forward_difference (mask perturbed base : list num) (e : num) :
  length perturbed = length mask → length base = length mask →
  length (forward_difference mask perturbed base e) = length mask.
Proof.
  intros H1 H2.
  rewrite /forward_difference length_fmap !length_zip_with. lia.
Qed.


Lemma perturb_lookup_eq (v : list num) (i : nat) (e x : num) :
  v !! i = Some x → perturb v i e !! i = Some (sadd x e).
Proof. intros H. by rewrite /perturb list_lookup_alter_eq H. Qed.

Lemma perturb_lookup_ne (v : list num) (i j : nat) (e : num) :
  i ≠ j → perturb v i e !! j = v !! j.
Proof. intros H. by rewrite /perturb list_lookup_alter_ne. Qed.

Lemma length_perturb (v : list num) (i : nat) (e : num) :
  length (perturb v i e) = length v.
Proof. by rewrite /perturb length_alter. Qed.

(** With the laws that floating-point arithmetic keeps: perturbing by
    adding a scaled unit vector, and the product of a zero row and a
    vector, which is zero when zero annihilates every entry of the
    vector. *)
Lemma vadd_insert_zeros_float `{!FloatLaws F} (v : list num) (i : nat)
    (e : num) :
  vadd v (<[i:=e]> (zeros (length v))) = perturb v i e.
Proof.
  rewrite /vadd /perturb /zeros. revert i.
  induction v as [|x v IH]; intros i; [done|].
  destruct i as [|i]; simpl.
  - f_equal. clear IH. induction v as [|y v IH]; [done|].
    simpl. by rewrite fadd_0_r IH.
  - by rewrite fadd_0_r IH.
Qed.



End VectorFacts.

(** ** Positions in the flat encoding *)

Section PositionFacts.
Context {F : Scalar}.




End PositionFacts.

(** ** The finite-difference adjoint *)

Section AdjointFacts.
Context {F : Scalar}.


Lemma map_g_to_dinput_same_structure (dx : PyTree) (g : GradTree)
    (mapped_g : PyTree) :
  map_g_to_dinput dx g = Ok mapped_g → same_structure dx g.
Proof.
  rewrite /map_g_to_dinput /same_structure. revert g mapped_g.
  induction dx as [|[p d] dx IH]; intros [|[q gl] g] m H; simpl in H;
    try done; try (by constructor).
  destruct (decide (p = q)) as [->|]; [|done].
  destruct (tree_map2 fix_leaf dx g) as [rest|] eqn:Hr; [|done].
  constructor; [done|]. exact (IH _ _ Hr).
Qed.

Variable mjx_step : PyTree → PyTree.
Variable set_control_fn : PyTree → list num → PyTree.
Variable c : FDCache.

Local Abbreviation step_fn' := (step_fn mjx_step set_control_fn).


Lemma fdx_for_index_float_spec `{!FloatLaws F} (dx : PyTree)
    (u : list num) (dx_out : PyTree) (idx : nat) :
  fdx_for_index mjx_step set_control_fn c dx u dx_out idx
  = forward_difference (sensitivity_mask c)
      (ravel (step_fn' (unravel_dx c (perturb (ravel dx) idx (eps c))) u))
      (ravel dx_out) (eps c).
Proof.
  by rewrite /fdx_for_index forward_difference_eq vadd_insert_zeros_float.
Qed.

Lemma step_fn_bwd_Ok (dx : PyTree) (u : list num) (dx_out : PyTree)
    (g : GradTree) (mapped_g : PyTree) :
  map_g_to_dinput dx g = Ok mapped_g →
  step_fn_bwd mjx_step set_control_fn c (dx, u, dx_out) g
  = Ok (unravel_dx c
          (matvec (Jx_array mjx_step set_control_fn c dx u dx_out)
                  (ravel mapped_g)),
        matvec (Ju_array mjx_step set_control_fn c dx u dx_out)
               (ravel mapped_g)).
Proof. intros H. by rewrite /step_fn_bwd H. Qed.
End AdjointFacts.








(** ** The scan and the packed rows *)

Section ScanFacts.
Context {A C : Type}.
Implicit Types (f : C → C * A) (init : C).

Lemma scan_S f init (n : nat) :
  scan f init (S n)
  = ((scan f (f init).1 n).1, (f init).2 :: (scan f (f init).1 n).2).
Proof.
  simpl. destruct (f init) as [carry y]; simpl.
  by destruct (scan f carry n) as [final ys].
Qed.

Lemma scan_length f init (n : nat) : length (scan f init n).2 = n.
Proof.
  revert init. induction n as [|n IH]; intros init; [done|].
  by rewrite scan_S /= IH.
Qed.

Lemma scan_final f init (n : nat) : (scan f init n).1 = carry_at f init n.
Proof.
  revert init. induction n as [|n IH]; intros init; [done|].
  by rewrite scan_S /= IH.
Qed.

Lemma scan_lookup f init (n t : nat) :
  t < n → (scan f init n).2 !! t = Some (f (carry_at f init t)).2.
Proof.
  revert init t. induction n as [|n IH]; intros init t Ht; [lia|].
  rewrite scan_S /=. destruct t as [|t]; [done|].
  simpl. apply IH. lia.
Qed.

Lemma carry_at_S f init (t : nat) :
  carry_at f init (S t) = (f (carry_at f init t)).1.
Proof.
  revert init. induction t as [|t IH]; intros init; [done|].
  change (carry_at f init (S (S t))) with (carry_at f (f init).1 (S t)).
  by rewrite IH.
Qed.
End ScanFacts.

Section RowFacts.
Context {A : Type}.
Implicit Types (x ctrl : list A) (cost t d : A).

Lemma slice_to_neg_row x ctrl cost t (n : nat) :
  length ctrl = n → slice_to_neg (n + 2) (x ++ ctrl ++ [cost] ++ [t]) = x.
Proof.
  intros H. rewrite /slice_to_neg !length_app /= H.
  replace (length x + (n + 2) - (n + 2)) with (length x) by lia.
  by rewrite take_app_length.
Qed.

Lemma slice_neg_neg_row x ctrl cost t (n : nat) :
  length ctrl = n →
  slice_neg_neg (n + 2) 2 (x ++ ctrl ++ [cost] ++ [t]) = ctrl.
Proof.
  intros H. rewrite /slice_neg_neg !length_app /= H.
  replace (length x + (n + 2) - (n + 2)) with (length x) by lia.
  replace (length x + (n + 2) - 2) with (length (x ++ ctrl))
    by (rewrite length_app; lia).
  rewrite (app_assoc x ctrl) take_app_length.
  by rewrite drop_app_length.
Qed.

Lemma index_neg_2_row x ctrl cost t d :
  index_neg d 2 (x ++ ctrl ++ [cost] ++ [t]) = cost.
Proof.
  rewrite /index_neg !length_app /=.
  replace (length x + (length ctrl + 2) - 2) with (length (x ++ ctrl) + 0)
    by (rewrite length_app; lia).
  by rewrite (app_assoc x ctrl) lookup_app_r ?Nat.add_0_r ?Nat.sub_diag.
Qed.

Lemma index_neg_1_row x ctrl cost t d :
  index_neg d 1 (x ++ ctrl ++ [cost] ++ [t]) = t.
Proof.
  rewrite /index_neg !length_app /=.
  rewrite lookup_app_r; [lia|]. rewrite lookup_app_r; [lia|].
  by replace (length x + (length ctrl + 2) - 1 - length x - length ctrl)
    with 1 by lia.
Qed.
End RowFacts.

(** ** The rollout *)

Section RolloutFacts.
Context {F : Scalar} {E : Engine} {Network : Type}.
Variables (ctx : Context Network) (net : Network) (key : Key).

Local Abbreviation model := (mx (cfg ctx)).
Local Abbreviation carry t x :=
  (carry_at (step ctx net) (set_init ctx x, key) t).

Lemma step_spec (dx : Data) (k : Key) :
  let dx_c := (controller (cbs ctx) net model dx (random_split k).2).1 in
  let dx_n := mjx_step model dx_c in
  step ctx net (dx, k)
  = ((dx_n, (random_split k).1),
     state_encoder (cbs ctx) model dx_n ++ data_ctrl dx_n
       ++ [running_cost ctx dx_c] ++ [data_time dx_n]).
Proof.
  rewrite /step /cost_fn /running_cost /=.
  destruct (random_split k) as [k' subkey]; simpl.
  by destruct (controller (cbs ctx) net model dx subkey) as [dx_c u].
Qed.

Lemma rollout_unfold (x_init : list num) :
  let s := scan (step ctx net) (set_init ctx x_init, key)
                (nsteps (cfg ctx) - 1) in
  rollout ctx net key x_init
  = {| traj_x := x_init :: (slice_to_neg (nu model + 2) <$> s.2);
       traj_u := slice_neg_neg (nu model + 2) 2 <$> s.2;
       traj_costs := (index_neg s0 2 <$> s.2)
                       ++ [terminal_cost (cbs ctx) model s.1.1];
       traj_t := dt (cfg ctx) :: (index_neg s0 1 <$> s.2) |}.
Proof.
  rewrite /rollout /=.
  by destruct (scan _ _ _) as [[dx k] res].
Qed.

Lemma carry_state_S (x_init : list num) (t : nat) :
  carry_state ctx net key x_init (S t)
  = mjx_step model (controlled_state ctx net key x_init t).
Proof.
  rewrite /carry_state /controlled_state /carry_subkey /carry_state.
  rewrite carry_at_S. destruct (carry t x_init) as [dx k].
  by rewrite step_spec.
Qed.

(** Row [t] of the scan output. *)
Lemma scan_row (x_init : list num) (n t : nat) :
  t < n →
  (scan (step ctx net) (set_init ctx x_init, key) n).2 !! t
  = Some (state_encoder (cbs ctx) model
            (carry_state ctx net key x_init (S t))
          ++ data_ctrl (carry_state ctx net key x_init (S t))
          ++ [running_cost ctx (controlled_state ctx net key x_init t)]
          ++ [data_time (carry_state ctx net key x_init (S t))]).
Proof.
  intros Ht. rewrite scan_lookup // carry_state_S.
  rewrite /controlled_state /carry_subkey /carry_state.
  destruct (carry t x_init) as [dx k]. by rewrite step_spec.
Qed.

Lemma rollout_costs_length (x_init : list num) :
  length (traj_costs (rollout ctx net key x_init))
  = (nsteps (cfg ctx) - 1) + 1.
Proof.
  by rewrite rollout_unfold /= length_app length_fmap scan_length.
Qed.

Lemma rollout_running_cost (x_init : list num) (t : nat) :
  t < nsteps (cfg ctx) - 1 →
  traj_costs (rollout ctx net key x_init) !! t
  = Some (running_cost ctx (controlled_state ctx net key x_init t)).
Proof.
  intros Ht. rewrite rollout_unfold /=.
  rewrite lookup_app_l ?length_fmap ?scan_length //.
  by rewrite list_lookup_fmap scan_row //= index_neg_2_row.
Qed.

Lemma rollout_terminal_cost (x_init : list num) :
  traj_costs (rollout ctx net key x_init) !! (nsteps (cfg ctx) - 1)
  = Some (terminal_cost (cbs ctx) model
            (carry_state ctx net key x_init (nsteps (cfg ctx) - 1))).
Proof.
  rewrite rollout_unfold /=.
  rewrite lookup_app_r length_fmap scan_length // Nat.sub_diag /=.
  by rewrite scan_final.
Qed.

Lemma rollout_time (x_init : list num) (t : nat) :
  t < nsteps (cfg ctx) - 1 →
  traj_t (rollout ctx net key x_init) !! S t
  = Some (data_time (carry_state ctx net key x_init (S t))).
Proof.
  intros Ht. rewrite rollout_unfold /=.
  by rewrite list_lookup_fmap scan_row //= index_neg_1_row.
Qed.

Section WithControlShape.
Hypothesis ctrl_shape : ∀ dx : Data, length (data_ctrl dx) = nu model.

Lemma rollout_state (x_init : list num) (t : nat) :
  t < nsteps (cfg ctx) - 1 →
  traj_x (rollout ctx net key x_init) !! S t
  = Some (state_encoder (cbs ctx) model
            (carry_state ctx net key x_init (S t))).
Proof.
  intros Ht. rewrite rollout_unfold /=.
  by rewrite list_lookup_fmap scan_row //= slice_to_neg_row.
Qed.

Lemma rollout_control (x_init : list num) (t : nat) :
  t < nsteps (cfg ctx) - 1 →
  traj_u (rollout ctx net key x_init) !! t
  = Some (data_ctrl (carry_state ctx net key x_init (S t))).
Proof.
  intros Ht. rewrite rollout_unfold /=.
  by rewrite list_lookup_fmap scan_row //= slice_neg_neg_row.
Qed.
End WithControlShape.
End RolloutFacts.

(** C3 (amended). For a rollout configured with [nsteps >= 1] the scan
    runs [nsteps - 1] steps: the returned cost sequence has exactly
    [nsteps - 1] running-cost entries followed by exactly one
    terminal-cost entry, [nsteps] entries in all. *)
Theorem rollout_cost_count {F : Scalar} {E : Engine} {Network : Type}
    (ctx : Context Network) (net : Network) (key : Key)
    (x_init : list num) :
  1 ≤ nsteps (cfg ctx) →
  let costs := traj_costs (rollout ctx net key x_init) in
  let n := nsteps (cfg ctx) - 1 in
  length costs = n + 1 ∧
  length costs = nsteps (cfg ctx) ∧
  (∀ t, t < n →
        costs !! t
        = Some (running_cost ctx (controlled_state ctx net key x_init t))) ∧
  costs !! n
  = Some (terminal_cost (cbs ctx) (mx (cfg ctx))
            (carry_state ctx net key x_init n)).
Proof.
  intros Hn costs n. split; [apply rollout_costs_length|].
  split; [rewrite /costs rollout_costs_length; lia|].
  split; [intros t Ht; by apply rollout_running_cost|].
  apply rollout_terminal_cost.
Qed.

Lemma rollout_cost_count_witness :
  length (traj_costs (rollout toy_ctx tt tt toy_x_init)) = 3 ∧
  traj_costs (rollout toy_ctx tt tt toy_x_init) !! 2
  = Some (terminal_cost (cbs toy_ctx) (mx (cfg toy_ctx))
            (carry_state toy_ctx tt tt toy_x_init 2)).
Proof.
  assert (1 ≤ nsteps (cfg toy_ctx)) as Hn by (simpl; lia).
  destruct (rollout_cost_count toy_ctx tt tt toy_x_init Hn)
    as (_ & Hlen & _ & Hterm).
  split; [exact Hlen | exact Hterm].
Defined.

(** C3, as stated, fails for the horizon that the configuration sets:
    with [nsteps = 3] the rollout returns 3 costs (2 running costs and the
    terminal cost), not 3 + 1. *)
Lemma rollout_cost_count_not_succ :
  nsteps (cfg toy_ctx) = 3 ∧
  traj_costs (rollout toy_ctx tt tt toy_x_init) = [8; 18; 40]%Z ∧
  length (traj_costs (rollout toy_ctx tt tt toy_x_init))
  ≠ nsteps (cfg toy_ctx) + 1.
Proof.
  split; [reflexivity|]. split; [reflexivity|].
  vm_compute. intros H. discriminate H.
Qed.

(** C9. Two batches of initial states that agree at every batch element
    other than [b] give, at every batch element other than [b], the same
    trajectory, controls, costs and times. *)
Theorem batch_independence {F : Scalar} {E : Engine} {Network : Type}
    (ctx : Context Network) (net : Network) (key : Key)
    (x_inits x_inits' : list (list num)) (b : nat) :
  (∀ b', b' ≠ b → x_inits !! b' = x_inits' !! b') →
  ∀ b', b' ≠ b →
    let out := controlled_simulate ctx net key x_inits in
    let out' := controlled_simulate ctx net key x_inits' in
    out.1.1.1 !! b' = out'.1.1.1 !! b' ∧
    out.1.1.2 !! b' = out'.1.1.2 !! b' ∧
    out.1.2 !! b' = out'.1.2 !! b' ∧
    out.2 !! b' = out'.2 !! b'.
Proof.
  intros Hagree b' Hb'. specialize (Hagree b' Hb').
  rewrite /controlled_simulate /=.
  rewrite -!list_fmap_compose !list_lookup_fmap Hagree. done.
Qed.

Lemma batch_independence_witness :
  let out := controlled_simulate toy_ctx tt tt [[1; 1]; [2; 0]]%Z in
  let out' := controlled_simulate toy_ctx tt tt [[5; 1]; [2; 0]]%Z in
  out.1.1.1 !! 1 = out'.1.1.1 !! 1 ∧
  out.1.1.2 !! 1 = out'.1.1.2 !! 1 ∧
  out.1.2 !! 1 = out'.1.2 !! 1 ∧
  out.2 !! 1 = out'.2 !! 1.
Proof.
  apply (batch_independence toy_ctx tt tt
           [[1; 1]; [2; 0]]%Z [[5; 1]; [2; 0]]%Z 0).
  - intros [|[|b']] Hb'; [lia | reflexivity | reflexivity].
  - lia.
Defined.

(** C10 (amended). For every batch element, with [dx_t] the engine state
    that enters scan iteration [t]: entry 0 of the returned trajectory is
    the raw [x_init] and time 0 is [dt], while [dx_0] is [x_init] written
    into fresh data and advanced by one physics step; the control and the
    cost at index [t] come from the controller applied to [dx_t]; and for
    [t >= 1] the state and the time at index [t] are the encoding and the
    time of that same [dx_t], which is the step of the controlled
    [dx_(t-1)]. So the recorded state lags the state behind control and
    cost by one physics step at index 0 only. *)
Theorem rollout_index_alignment {F : Scalar} {E : Engine} {Network : Type}
    (ctx : Context Network) (net : Network) (key : Key)
    (x_init : list num) :
  (∀ dx : Data, length (data_ctrl dx) = nu (mx (cfg ctx))) →
  let r := rollout ctx net key x_init in
  let m := mx (cfg ctx) in
  let dx t := carry_state ctx net key x_init t in
  let dx_ctrl t := controlled_state ctx net key x_init t in
  traj_x r !! 0 = Some x_init ∧
  traj_t r !! 0 = Some (dt (cfg ctx)) ∧
  dx 0 = mjx_step m (replace_qpos_qvel (make_data m)
                       (take (nq m) x_init) (drop (nq m) x_init)) ∧
  ∀ t, t < nsteps (cfg ctx) - 1 →
       traj_u r !! t = Some (data_ctrl (mjx_step m (dx_ctrl t))) ∧
       traj_costs r !! t = Some (running_cost ctx (dx_ctrl t)) ∧
       dx (S t) = mjx_step m (dx_ctrl t) ∧
       traj_x r !! S t = Some (state_encoder (cbs ctx) m (dx (S t))) ∧
       traj_t r !! S t = Some (data_time (dx (S t))).
Proof.
  intros Hshape r m dx dx_ctrl.
  split; [by rewrite /r rollout_unfold|].
  split; [by rewrite /r rollout_unfold|].
  split; [done|].
  intros t Ht. rewrite /r /dx /dx_ctrl /m.
  rewrite rollout_control // rollout_running_cost // rollout_state //.
  by rewrite rollout_time // carry_state_S.
Qed.

Lemma rollout_index_alignment_witness :
  traj_x (rollout toy_ctx tt tt toy_x_init) !! 1
  = Some (state_encoder (cbs toy_ctx) (mx (cfg toy_ctx))
            (carry_state toy_ctx tt tt toy_x_init 1)) ∧
  traj_costs (rollout toy_ctx tt tt toy_x_init) !! 1
  = Some (running_cost toy_ctx (controlled_state toy_ctx tt tt toy_x_init 1)).
Proof.
  assert (∀ dx : @Data Z_scalar toy_engine,
            length (data_ctrl dx) = nu (mx (cfg toy_ctx))) as Hshape
    by (intros dx; reflexivity).
  destruct (rollout_index_alignment toy_ctx tt tt toy_x_init Hshape)
    as (_ & _ & _ & Hstep).
  assert (0 < nsteps (cfg toy_ctx) - 1) as H0 by (simpl; lia).
  assert (1 < nsteps (cfg toy_ctx) - 1) as H1 by (simpl; lia).
  destruct (Hstep 0 H0) as (_ & _ & _ & Hx & _).
  destruct (Hstep 1 H1) as (_ & Hc & _).
  split; [exact Hx | exact Hc].
Defined.

(** C10, as stated, fails past index 0: in the rollout of the point mass
    from [toy_x_init] the cost at index 0 is that of a state one step
    ahead of the recorded [x_init], but the state recorded at index 1 is
    [[3; -1]], whose successor has running cost 8, and the cost recorded
    at index 1 is 18, the running cost at [[3; -1]] itself. *)
Lemma cost_not_one_step_ahead :
  cost_one_step_ahead toy_ctx tt tt toy_x_init 0 ∧
  ¬ cost_one_step_ahead toy_ctx tt tt toy_x_init 1.
Proof.
  split.
  - exists {| toy_qpos := 1; toy_qvel := 1; toy_ctrl := 0; toy_time := 0 |}.
    exists tt. split; reflexivity.
  - intros ([q v c t] & k & Hx & Hc).
    vm_compute in Hx. injection Hx as Hq Hv. subst q v.
    vm_compute in Hc. discriminate Hc.
Qed.

(** ** The context *)

Section ContextFacts.
Context {F : Scalar}.

Lemma all_positive_spec (a : list num) :
  all_positive a = true ↔ ∀ x, x ∈ a → sgtb x s0 = true.
Proof.
  rewrite /all_positive. induction a as [|y a IH]; simpl.
  - split; [by intros _ x ?%elem_of_nil | done].
  - rewrite andb_true_iff IH. split.
    + intros [Hy Ha] x [->|Hx]%elem_of_cons; [done | by apply Ha].
    + intros H. split; [apply H; left | intros x Hx; apply H; by right].
Qed.
End ContextFacts.

(** C8. [Context(cfg, cbs)] raises at construction when some eigenvalue
    that [eigh] computes for [cfg.R] is not greater than 0, and returns
    the context when all of them are; so a context exists only for an [R]
    whose computed eigenvalues are all positive. *)
Theorem context_requires_positive_definite {F : Scalar} {E : Engine}
    {Network : Type} (linalg_eigh_values : list (list num) → list num)
    (config : Config) (callbacks : Callbacks Network) :
  ((∃ ev, ev ∈ linalg_eigh_values (R config) ∧ sgtb ev s0 = false) →
   Context_init linalg_eigh_values config callbacks = Raise AssertionError) ∧
  ((∀ ev, ev ∈ linalg_eigh_values (R config) → sgtb ev s0 = true) →
   Context_init linalg_eigh_values config callbacks
   = Ok {| cfg := config; cbs := callbacks |}) ∧
  (∀ ctx, Context_init linalg_eigh_values config callbacks = Ok ctx →
          cfg ctx = config ∧ cbs ctx = callbacks ∧
          ∀ ev, ev ∈ linalg_eigh_values (R config) → sgtb ev s0 = true).
Proof.
  rewrite /Context_init /=.
  destruct (all_positive (linalg_eigh_values (R config))) eqn:Hall.
  - rewrite all_positive_spec in Hall. split; [|split].
    + intros (ev & Hin & Hev). rewrite (Hall ev Hin) in Hev. discriminate Hev.
    + done.
    + by intros ctx [= <-].
  - split; [done|]. split.
    + intros Hpos. apply all_positive_spec in Hpos. congruence.
    + intros ctx Hctx. discriminate Hctx.
Qed.

Lemma context_requires_positive_definite_witness :
  Context_init diag_eigh_values toy_cfg toy_cbs = Ok toy_ctx ∧
  Context_init diag_eigh_values
    {| lr := lr toy_cfg; seed := 0; nsteps := 3; epochs := 1; batch := 2;
       vis := 0; dt := dt toy_cfg; path := "point_mass.xml";
       R := [[0%Z]]; mx := toy_model |} toy_cbs
  = Raise AssertionError.
Proof.
  split.
  - apply (context_requires_positive_definite diag_eigh_values
             toy_cfg toy_cbs).
    intros ev [->|H]%elem_of_cons; [reflexivity | by apply elem_of_nil in H].
  - apply context_requires_positive_definite.
    exists 0%Z. split; [left | reflexivity].
Defined.

(* ================================================================== *)
(** * Further results *)
(* ================================================================== *)

(** ** Validation of the callbacks *)

Ltac find_elem := repeat (first [by left | right]).

Lemma check_params_None (attr_name : string) (ps : list param)
    (ts : list pytype) :
  length ps = length ts →
  check_params attr_name ps ts = None ↔ param_annotation <$> ps = Some <$> ts.
Proof.
  revert ts. induction ps as [|p ps IH]; intros [|t ts] Hlen;
    simpl in Hlen; try lia; [done|].
  csimpl. destruct (param_annotation p) as [a|].
  - case_bool_decide as Ha.
    + subst a. rewrite IH; [lia|]. split; [by intros -> | by intros [= ->]].
    + split; [done | intros [= ?]; done].
  - split; [done | intros [= ?]].
Qed.

Lemma validate_attr_None (attr_name : string) (expected_type : hint)
    (func : signature) :
  validate_attr attr_name expected_type func = None
  ↔ matches_hint func expected_type.
Proof.
  rewrite /matches_hint. destruct expected_type as [args ret|t]; simpl.
  - case_bool_decide as Hlen.
    + pose proof (check_params_None attr_name _ _ Hlen) as Hc.
      destruct (check_params attr_name (sig_parameters func) args) as [e|].
      * split; [done|]. intros (a & r & [= <- <-] & Hp & _).
        apply Hc in Hp. done.
      * destruct (sig_return_annotation func) as [r|].
        -- case_bool_decide as Hr.
           ++ subst r. split; [|done]. intros _. exists args, ret.
              split; [done|]. split; [by apply Hc | done].
           ++ split; [done|]. intros (a & r' & [= <- <-] & _ & [= ?]). done.
        -- split; [done|]. intros (a & r' & _ & _ & ?). done.
    + split; [done|]. intros (a & r & [= <- <-] & Hp & _).
      apply (f_equal length) in Hp. rewrite !length_fmap in Hp. done.
  - split; [done|]. intros (a & r & ? & _). done.
Qed.

Lemma validate_callbacks_None (annotations : list (string * hint))
    (self : string → signature) :
  validate_callbacks annotations self = None
  ↔ Forall (λ ah, ah.1 ≠ "return" → matches_hint (self ah.1) ah.2)
           annotations.
Proof.
  induction annotations as [|[a h] anns IH]; simpl.
  - split; [constructor | done].
  - rewrite Forall_cons /=. case_bool_decide as Hret.
    + rewrite IH. split; [by intros ? | by intros [_ ?]].
    + pose proof (validate_attr_None a h (self a)) as Hv.
      destruct (validate_attr a h (self a)) as [e|].
      * split; [done|]. intros [Hm _]. apply Hv in Hm; done.
      * rewrite IH. split; [intros ?; split; [intros _; by apply Hv|done]|].
        by intros [_ ?].
Qed.

(** X1. [Callbacks(...)] passes its validation exactly when every one of
    the eight callbacks has the annotated signature that the type hints
    of [__init__] give: as many parameters, each annotated with the
    expected type, and the expected return annotation. *)
Theorem callbacks_accepted_iff (self : string → signature) :
  Callbacks_validate self = None
  ↔ ∀ attr_name expected_type,
      (attr_name, expected_type) ∈ Callbacks_annotations →
      matches_hint (self attr_name) expected_type.
Proof.
  rewrite /Callbacks_validate validate_callbacks_None Forall_forall. split.
  - intros H a h Hin. apply (H (a, h) Hin). simpl. intros ->.
    rewrite /Callbacks_annotations in Hin.
    repeat (apply elem_of_cons in Hin as [[=]|Hin]).
    by apply elem_of_nil in Hin.
  - intros H [a h] Hin _. by apply H.
Qed.

(** X2. The validation raises for the first attribute, in the order of
    the annotations, whose callback fails its check, with the error of
    that check. *)
Theorem validate_callbacks_first_error (before after : list (string * hint))
    (attr_name : string) (expected_type : hint) (self : string → signature)
    (e : type_error) :
  Forall (λ ah, ah.1 ≠ "return" → matches_hint (self ah.1) ah.2) before →
  attr_name ≠ "return" →
  validate_attr attr_name expected_type (self attr_name) = Some e →
  validate_callbacks (before ++ (attr_name, expected_type) :: after) self
  = Some e.
Proof.
  intros Hbefore Hname He.
  induction Hbefore as [|[a h] before Ha _ IH]; simpl.
  - by rewrite bool_decide_eq_false_2 // He.
  - case_bool_decide as Hret; [exact IH|].
    simpl in Ha. apply Ha in Hret.
    apply (proj2 (validate_attr_None a h (self a))) in Hret.
    by rewrite Hret.
Qed.

Lemma validate_callbacks_first_error_witness :
  validate_callbacks Callbacks_annotations
    (λ a, if bool_decide (a = "init_gen") then lambda_x
          else good_callbacks a)
  = Some (WrongParamCount "init_gen" 2 1).
Proof.
  apply (validate_callbacks_first_error
           [ ("run_cost", Callable ["jnp.ndarray"] "jnp.ndarray");
             ("terminal_cost", Callable ["jnp.ndarray"] "jnp.ndarray");
             ("control_cost", Callable ["jnp.ndarray"] "jnp.ndarray") ]).
  - repeat (apply Forall_cons_2;
              [intros _; apply (proj1 (validate_attr_None "" _ _));
               reflexivity|]).
    apply Forall_nil_2.
  - done.
  - reflexivity.
Defined.

(** X3. A callable without annotations, such as a [lambda], is rejected
    for every attribute that has a type hint: [Callbacks] cannot be
    built from it. *)
Theorem unannotated_callback_rejected (annotations : list (string * hint))
    (self : string → signature) (attr_name : string)
    (expected_type : hint) :
  (attr_name, expected_type) ∈ annotations →
  attr_name ≠ "return" →
  Forall (λ p, param_annotation p = None) (sig_parameters (self attr_name)) →
  sig_return_annotation (self attr_name) = None →
  ∃ e, validate_callbacks annotations self = Some e.
Proof.
  intros Hin Hname Hparams Hret.
  destruct (validate_callbacks annotations self) as [e|] eqn:Hv; [eauto|].
  exfalso. apply validate_callbacks_None in Hv.
  rewrite Forall_forall in Hv. specialize (Hv _ Hin Hname).
  destruct Hv as (args & ret & _ & _ & Hr). simpl in Hr. congruence.
Qed.

Lemma unannotated_callback_rejected_witness :
  ∃ e, validate_callbacks Callbacks_annotations (λ _, lambda_x) = Some e.
Proof.
  apply (unannotated_callback_rejected Callbacks_annotations
           (λ _, lambda_x) "state_encoder"
           (Callable ["jnp.ndarray"] "jnp.ndarray")).
  - rewrite /Callbacks_annotations. find_elem.
  - done.
  - repeat constructor.
  - reflexivity.
Defined.

(** X4. A [Callbacks] object that passes the validation has callbacks of
    these numbers of parameters: one for the three costs and the two
    state codecs, two for [init_gen], none for [gen_network] and six for
    [controller]. *)
Theorem callbacks_accepted_arity (self : string → signature) :
  Callbacks_validate self = None →
  let arity a := length (sig_parameters (self a)) in
  arity "run_cost" = 1 ∧ arity "terminal_cost" = 1 ∧
  arity "control_cost" = 1 ∧ arity "init_gen" = 2 ∧
  arity "state_encoder" = 1 ∧ arity "state_decoder" = 1 ∧
  arity "gen_network" = 0 ∧ arity "controller" = 6.
Proof.
  intros H. apply (proj1 (validate_callbacks_None _ _)) in H.
  rewrite Forall_forall in H.
  assert (∀ a args ret, (a, Callable args ret) ∈ Callbacks_annotations →
                        a ≠ "return" →
                        length (sig_parameters (self a)) = length args) as Hl.
  { intros a args ret Hin Ha.
    destruct (H _ Hin Ha) as (? & ? & [= <- <-] & Hp & _).
    apply (f_equal length) in Hp. by rewrite !length_fmap in Hp. }
  simpl. rewrite /Callbacks_annotations in Hl.
  repeat split.
  - by apply (Hl _ ["jnp.ndarray"] "jnp.ndarray"); [find_elem|].
  - by apply (Hl _ ["jnp.ndarray"] "jnp.ndarray"); [find_elem|].
  - by apply (Hl _ ["jnp.ndarray"] "jnp.ndarray"); [find_elem|].
  - by apply (Hl _ ["int"; "jnp.ndarray"] "jnp.ndarray"); [find_elem|].
  - by apply (Hl _ ["jnp.ndarray"] "jnp.ndarray"); [find_elem|].
  - by apply (Hl _ ["jnp.ndarray"] "jnp.ndarray"); [find_elem|].
  - by apply (Hl _ [] "eqx.Module"); [find_elem|].
  - by apply (Hl _ ["jnp.ndarray"; "jnp.ndarray"; "eqx.Module"; "Config";
                    "mjx.Model"; "mjx.Data"] "jnp.ndarray"); [find_elem|].
Qed.

Lemma callbacks_accepted_arity_witness :
  length (sig_parameters (good_callbacks "run_cost")) = 1 ∧
  length (sig_parameters (good_callbacks "controller")) = 6.
Proof.
  assert (Callbacks_validate good_callbacks = None) as H by reflexivity.
  destruct (callbacks_accepted_arity good_callbacks H)
    as (H1 & _ & _ & _ & _ & _ & _ & H8).
  split; [exact H1 | exact H8].
Defined.

(** ** The optimisation loop *)

Section SolveFacts.
Context {F : Scalar}.
Context {EqxModule Params Static Grads OptState Updates : Type}.
Variable partition : EqxModule → Params * Static.
Variable apply_updates : EqxModule → Updates → EqxModule.
Variable self : Policy Params Static Grads.
Variable optim_update : Grads → OptState → EqxModule → Updates * OptState.

Local Abbreviation iteration :=
  (solve_iteration EqxModule Params Static Grads OptState Updates
     partition apply_updates self optim_update).
Local Abbreviation loop model state n :=
  (foldl iteration (model, state, []) (seq 0 n)).

(** The model and the optimiser state after one pass do not depend on
    the pass number, nor on what was printed before. *)
Lemma solve_iteration_state (acc : EqxModule * OptState * list (nat * num))
    (i : nat) :
  (iteration acc i).1
  = (iteration (acc.1, []) 0).1.
Proof.
  destruct acc as [[model state] printed]. rewrite /solve_iteration /=.
  destruct (partition model) as [params static].
  by destruct (optim_update _ state model) as [updates state'].
Qed.

Lemma solve_iteration_printed (acc : EqxModule * OptState * list (nat * num))
    (i : nat) :
  (iteration acc i).2
  = acc.2 ++ [(i, model_loss EqxModule Params Static Grads partition self
                    acc.1.1)].
Proof.
  destruct acc as [[model state] printed].
  rewrite /solve_iteration /model_loss /=.
  destruct (partition model) as [params static].
  by destruct (optim_update _ state model) as [updates state'].
Qed.

Lemma foldl_iteration_state (acc acc' : EqxModule * OptState * list (nat * num))
    (idxs idxs' : list nat) :
  acc.1 = acc'.1 → length idxs = length idxs' →
  (foldl iteration acc idxs).1 = (foldl iteration acc' idxs').1.
Proof.
  revert acc acc' idxs'.
  induction idxs as [|i idxs IH]; intros acc acc' [|i' idxs'] Hacc Hlen;
    simpl in Hlen; try lia; [done|].
  simpl. apply IH; [|lia].
  rewrite (solve_iteration_state acc) (solve_iteration_state acc').
  by rewrite Hacc.
Qed.

Lemma loop_S (model : EqxModule) (state : OptState) (n : nat) :
  loop model state (S n) = iteration (loop model state n) n.
Proof. by rewrite seq_S foldl_app. Qed.

Lemma solve_eq (model : EqxModule) (state : OptState) (max_iter : Z) :
  solve EqxModule Params Static Grads OptState Updates partition
    apply_updates self optim_update model state max_iter
  = ((loop model state (Z.to_nat max_iter)).1.1,
     (loop model state (Z.to_nat max_iter)).2).
Proof.
  rewrite /solve /solve_loop.
  by destruct (foldl _ _ _) as [[m s] printed].
Qed.

Lemma loop_printed (model : EqxModule) (state : OptState) (n : nat) :
  (loop model state n).2
  = (λ i, (i, model_loss EqxModule Params Static Grads partition self
                (loop model state i).1.1)) <$> seq 0 n.
Proof.
  induction n as [|n IH]; [done|].
  by rewrite loop_S solve_iteration_printed IH seq_S fmap_app.
Qed.
End SolveFacts.

(** X5. [solve] prints one line per iteration, [max_iter] lines in all
    (none when [max_iter <= 0]); line [i] carries the loss of the model
    before update [i], which is the model that [solve] returns when it is
    run for [i] iterations. The loss of the returned model is not among
    them. *)
Theorem solve_prints_loss_before_update {F : Scalar}
    {EqxModule Params Static Grads OptState Updates : Type}
    (partition : EqxModule → Params * Static)
    (apply_updates : EqxModule → Updates → EqxModule)
    (self : Policy Params Static Grads)
    (optim_update : Grads → OptState → EqxModule → Updates * OptState)
    (model : EqxModule) (state : OptState) (max_iter : Z) :
  let run n :=
    solve EqxModule Params Static Grads OptState Updates partition
      apply_updates self optim_update model state n in
  length (run max_iter).2 = Z.to_nat max_iter ∧
  ∀ i, i < Z.to_nat max_iter →
       (run max_iter).2 !! i
       = Some (i, model_loss EqxModule Params Static Grads partition self
                    (run (Z.of_nat i)).1).
Proof.
  intros run. rewrite /run !solve_eq /= loop_printed. split.
  - by rewrite length_fmap length_seq.
  - intros i Hi. rewrite list_lookup_fmap lookup_seq_lt //=.
    by rewrite solve_eq Nat2Z.id.
Qed.

Lemma solve_prints_loss_before_update_witness :
  (solve Z Z unit Z nat Z toy_partition toy_apply_updates toy_policy
     toy_optim_update 8%Z 0 3%Z).2
  = [(0, 64%Z); (1, 16%Z); (2, 4%Z)] ∧
  (solve Z Z unit Z nat Z toy_partition toy_apply_updates toy_policy
     toy_optim_update 8%Z 0 3%Z).2 !! 2
  = Some (2, model_loss Z Z unit Z toy_partition toy_policy
               (solve Z Z unit Z nat Z toy_partition toy_apply_updates
                  toy_policy toy_optim_update 8%Z 0 (Z.of_nat 2)).1).
Proof.
  split; [reflexivity|].
  apply (solve_prints_loss_before_update toy_partition toy_apply_updates
           toy_policy toy_optim_update 8%Z 0 3%Z).
  simpl. lia.
Defined.

(** X6. With [max_iter <= 0] the loop body never runs: [solve] returns
    the model it was given and prints nothing. *)
Theorem solve_no_iterations {F : Scalar}
    {EqxModule Params Static Grads OptState Updates : Type}
    (partition : EqxModule → Params * Static)
    (apply_updates : EqxModule → Updates → EqxModule)
    (self : Policy Params Static Grads)
    (optim_update : Grads → OptState → EqxModule → Updates * OptState)
    (model : EqxModule) (state : OptState) (max_iter : Z) :
  (max_iter ≤ 0)%Z →
  solve EqxModule Params Static Grads OptState Updates partition
    apply_updates self optim_update model state max_iter
  = (model, []).
Proof.
  intros H. rewrite solve_eq.
  by replace (Z.to_nat max_iter) with 0 by lia.
Qed.

Lemma solve_no_iterations_witness :
  solve Z Z unit Z nat Z toy_partition toy_apply_updates toy_policy
    toy_optim_update 8%Z 0 (-2)%Z
  = (8%Z, []).
Proof.
  apply (solve_no_iterations toy_partition toy_apply_updates toy_policy
           toy_optim_update 8%Z 0 (-2)%Z).
  lia.
Defined.

(** X7. Running [n + m] iterations gives the model and the optimiser
    state of running [m] iterations from the model and the optimiser
    state that [n] iterations end with. *)
Theorem solve_loop_resume {F : Scalar}
    {EqxModule Params Static Grads OptState Updates : Type}
    (partition : EqxModule → Params * Static)
    (apply_updates : EqxModule → Updates → EqxModule)
    (self : Policy Params Static Grads)
    (optim_update : Grads → OptState → EqxModule → Updates * OptState)
    (model : EqxModule) (state : OptState) (n m : Z) :
  (0 ≤ n)%Z → (0 ≤ m)%Z →
  let run model state k :=
    (solve_loop EqxModule Params Static Grads OptState Updates partition
       apply_updates self optim_update model state k).1 in
  run model state (n + m)%Z = run (run model state n).1 (run model state n).2 m.
Proof.
  intros Hn Hm run. rewrite /run /solve_loop.
  rewrite Z2Nat.inj_add // seq_app foldl_app /=.
  apply foldl_iteration_state; [|by rewrite !length_seq].
  by destruct (foldl _ _ (seq 0 (Z.to_nat n))) as [[m' s'] printed].
Qed.

Lemma solve_loop_resume_witness :
  (solve_loop Z Z unit Z nat Z toy_partition toy_apply_updates toy_policy
     toy_optim_update 8%Z 0 (1 + 2)%Z).1
  = (solve_loop Z Z unit Z nat Z toy_partition toy_apply_updates toy_policy
       toy_optim_update 4%Z 1 2%Z).1.
Proof.
  apply (solve_loop_resume toy_partition toy_apply_updates toy_policy
           toy_optim_update 8%Z 0 1%Z 2%Z); lia.
Defined.

(** X8. A model that every update leaves as it is, whatever the
    optimiser state, is what [solve] returns for any number of
    iterations. *)
Theorem solve_stationary {F : Scalar}
    {EqxModule Params Static Grads OptState Updates : Type}
    (partition : EqxModule → Params * Static)
    (apply_updates : EqxModule → Updates → EqxModule)
    (self : Policy Params Static Grads)
    (optim_update : Grads → OptState → EqxModule → Updates * OptState)
    (model : EqxModule) (state : OptState) (max_iter : Z) :
  (∀ st, apply_updates model
           (optim_update
              (grad_loss _ _ _ self (partition model).1 (partition model).2)
              st model).1
         = model) →
  (solve EqxModule Params Static Grads OptState Updates partition
     apply_updates self optim_update model state max_iter).1
  = model.
Proof.
  intros Hfix. rewrite solve_eq /=.
  generalize (Z.to_nat max_iter). intros n.
  induction n as [|n IH]; [done|].
  rewrite loop_S.
  destruct (foldl _ _ (seq 0 n)) as [[m s] printed]. simpl in IH. subst m.
  rewrite /solve_iteration. specialize (Hfix s).
  destruct (partition model) as [params static]. simpl in Hfix.
  by destruct (optim_update _ s model) as [updates s'].
Qed.

Lemma solve_stationary_witness :
  (solve Z Z unit Z nat Z toy_partition toy_apply_updates toy_policy
     toy_optim_update 0%Z 0 5%Z).1
  = 0%Z.
Proof.
  apply (solve_stationary toy_partition toy_apply_updates toy_policy
           toy_optim_update 0%Z 0 5%Z).
  intros st. reflexivity.
Defined.

(** ** The trajectory of [policy.py] *)

(** X9. [simulate_trajectory] returns [length] states, none of them the
    initial one: state [t] is [qpos ++ qvel] after [t + 1] steps, each
    step applying the control that the model gives for the state and time
    before it; the trajectory starts from fresh data with [qpos_init]
    written; and the total cost is the sum of the running costs of the
    states after each step plus the terminal cost of the last state. *)
Theorem simulate_trajectory_unrolled {F : Scalar} {Dx : Type}
    (make_data : Dx) (replace_qpos : Dx → list num → Dx)
    (dx_qpos dx_qvel : Dx → list num) (dx_time : Dx → num)
    (running_cost_fn terminal_cost_fn : Dx → num)
    (step_fn : Dx → list num → Dx) (model : list num → num → list num)
    (qpos_init : list num) (n : nat) :
  let out :=
    simulate_trajectory Dx make_data replace_qpos dx_qpos dx_qvel dx_time
      running_cost_fn terminal_cost_fn step_fn model qpos_init n in
  let dx t :=
    trajectory_state Dx make_data replace_qpos dx_qpos dx_qvel dx_time
      running_cost_fn step_fn model qpos_init t in
  dx 0 = replace_qpos make_data qpos_init ∧
  (∀ t, dx (S t)
        = step_fn (dx t) (model (dx_qpos (dx t) ++ dx_qvel (dx t))
                                (dx_time (dx t)))) ∧
  length out.1 = n ∧
  (∀ t, t < n → out.1 !! t = Some (dx_qpos (dx (S t)) ++ dx_qvel (dx (S t)))) ∧
  out.2 = sadd (vsum ((λ t, running_cost_fn (dx (S t))) <$> seq 0 n))
               (terminal_cost_fn (dx n)).
Proof.
  intros out dx.
  assert (∀ t, dx (S t)
               = step_fn (dx t) (model (dx_qpos (dx t) ++ dx_qvel (dx t))
                                       (dx_time (dx t)))) as Hstep.
  { intros t. by rewrite /dx /trajectory_state carry_at_S. }
  assert (out = ((λ t, dx_qpos (dx (S t)) ++ dx_qvel (dx (S t))) <$> seq 0 n,
                 sadd (vsum ((λ t, running_cost_fn (dx (S t))) <$> seq 0 n))
                      (terminal_cost_fn (dx n)))) as ->.
  { rewrite /out /simulate_trajectory.
    pose proof (scan_final
                  (scan_step_fn Dx dx_qpos dx_qvel dx_time running_cost_fn
                     step_fn model)
                  (replace_qpos make_data qpos_init) n) as Hfin.
    pose proof (scan_length
                  (scan_step_fn Dx dx_qpos dx_qvel dx_time running_cost_fn
                     step_fn model)
                  (replace_qpos make_data qpos_init) n) as Hlen.
    pose proof (λ t, scan_lookup
                  (scan_step_fn Dx dx_qpos dx_qvel dx_time running_cost_fn
                     step_fn model)
                  (replace_qpos make_data qpos_init) n t) as Hrow.
    destruct (scan _ _ n) as [dx_final rows]. simpl in *. subst dx_final.
    assert (rows = (λ t, (dx_qpos (dx (S t)) ++ dx_qvel (dx (S t)),
                          running_cost_fn (dx (S t)))) <$> seq 0 n) as ->.
    { apply list_eq. intros t. rewrite list_lookup_fmap.
      destruct (decide (t < n)) as [Ht|Ht].
      - rewrite Hrow // lookup_seq_lt //=. by rewrite Hstep.
      - rewrite lookup_seq_ge; [lia|]. apply lookup_ge_None. lia. }
    by rewrite -!list_fmap_compose. }
  simpl. split; [done|]. split; [done|].
  split; [by rewrite length_fmap length_seq|]. split; [|done].
  intros t Ht. by rewrite list_lookup_fmap lookup_seq_lt.
Qed.

(** X10. With [length = 0] no step is taken: the state sequence is empty
    and the total cost is the terminal cost of the initial state. *)
Theorem simulate_trajectory_empty {F : Scalar} `{!ScalarLaws F} {Dx : Type}
    (make_data : Dx) (replace_qpos : Dx → list num → Dx)
    (dx_qpos dx_qvel : Dx → list num) (dx_time : Dx → num)
    (running_cost_fn terminal_cost_fn : Dx → num)
    (step_fn : Dx → list num → Dx) (model : list num → num → list num)
    (qpos_init : list num) :
  simulate_trajectory Dx make_data replace_qpos dx_qpos dx_qvel dx_time
    running_cost_fn terminal_cost_fn step_fn model qpos_init 0
  = ([], terminal_cost_fn (replace_qpos make_data qpos_init)).
Proof.
  rewrite /simulate_trajectory /=. by rewrite /vsum /= sadd_0_l.
Qed.

Lemma simulate_trajectory_empty_witness :
  @simulate_trajectory Z_scalar ToyData
    (@make_data Z_scalar toy_engine toy_model) toy_replace_qpos
    (λ d, [toy_qpos d]) (λ d, [toy_qvel d]) toy_time
    (λ d, (toy_qpos d * toy_qpos d)%Z) (λ d, (10 * toy_qpos d)%Z)
    toy_step_fn toy_feedback [3%Z] 0
  = ([], 30%Z).
Proof.
  exact (@simulate_trajectory_empty Z_scalar Z_laws ToyData
           (@make_data Z_scalar toy_engine toy_model) toy_replace_qpos
           (λ d, [toy_qpos d]) (λ d, [toy_qvel d]) toy_time
           (λ d, (toy_qpos d * toy_qpos d)%Z) (λ d, (10 * toy_qpos d)%Z)
           toy_step_fn toy_feedback [3%Z]).
Defined.

Lemma simulate_trajectory_unrolled_witness :
  (@simulate_trajectory Z_scalar ToyData
     (@make_data Z_scalar toy_engine toy_model) toy_replace_qpos
     (λ d, [toy_qpos d]) (λ d, [toy_qvel d]) toy_time
     (λ d, (toy_qpos d * toy_qpos d)%Z) (λ d, (10 * toy_qpos d)%Z)
     toy_step_fn toy_feedback [3%Z] 2).1 !! 1
  = Some [0%Z; (-6)%Z].
Proof.
  destruct (@simulate_trajectory_unrolled Z_scalar ToyData
              (@make_data Z_scalar toy_engine toy_model) toy_replace_qpos
              (λ d, [toy_qpos d]) (λ d, [toy_qvel d]) toy_time
              (λ d, (toy_qpos d * toy_qpos d)%Z) (λ d, (10 * toy_qpos d)%Z)
              toy_step_fn toy_feedback [3%Z] 2)
    as (_ & _ & _ & Hrow & _).
  rewrite Hrow; [lia | reflexivity].
Defined.

(** ** More on the rollout *)

Section RolloutMore.
Context {F : Scalar} {E : Engine} {Network : Type}.

Lemma scan_ext {A C : Type} (f g : C → C * A) (init : C) (n : nat) :
  (∀ c, f c = g c) → scan f init n = scan g init n.
Proof.
  intros Hfg. revert init. induction n as [|n IH]; intros init; [done|].
  by rewrite !scan_S Hfg IH.
Qed.

Lemma carry_key (ctx : Context Network) (net : Network) (dx : Data)
    (key : Key) (t : nat) :
  (carry_at (step ctx net) (dx, key) t).2 = key_at key t.
Proof.
  revert dx key. induction t as [|t IH]; intros dx key; [done|].
  pose proof (step_spec ctx net dx key) as Hs. cbv zeta in Hs.
  change (carry_at (step ctx net) (dx, key) (S t))
    with (carry_at (step ctx net) (step ctx net (dx, key)).1 t).
  rewrite Hs /=. apply IH.
Qed.

Lemma step_with_controller (ctx : Context Network) (net : Network)
    (c : Network → Model → Data → Key → Data * list num)
    (carry : Data * Key) :
  (∀ net m d k, (c net m d k).1 = (controller (cbs ctx) net m d k).1) →
  step (with_controller ctx c) net carry = step ctx net carry.
Proof.
  intros Hc. destruct carry as [dx k].
  pose proof (step_spec ctx net dx k) as H1.
  pose proof (step_spec (with_controller ctx c) net dx k) as H2.
  cbv zeta in H1, H2. rewrite H1 H2.
  rewrite /running_cost /with_controller /=. by rewrite Hc.
Qed.
End RolloutMore.

(** X11. For [nsteps >= 1] and an engine whose control has [nu]
    entries, [rollout] returns [nsteps] states and [nsteps] times but
    [nsteps - 1] controls, each control with [nu] entries. *)
Theorem rollout_shapes {F : Scalar} {E : Engine} {Network : Type}
    (ctx : Context Network) (net : Network) (key : Key)
    (x_init : list num) :
  1 ≤ nsteps (cfg ctx) →
  (∀ dx : Data, length (data_ctrl dx) = nu (mx (cfg ctx))) →
  let r := rollout ctx net key x_init in
  length (traj_x r) = nsteps (cfg ctx) ∧
  length (traj_t r) = nsteps (cfg ctx) ∧
  length (traj_u r) = nsteps (cfg ctx) - 1 ∧
  Forall (λ u, length u = nu (mx (cfg ctx))) (traj_u r).
Proof.
  intros Hn Hshape r.
  assert (length (traj_u r) = nsteps (cfg ctx) - 1) as Hu
    by by rewrite /r rollout_unfold /= length_fmap scan_length.
  rewrite /r rollout_unfold /= !length_fmap scan_length.
  split; [lia|]. split; [lia|]. split; [done|].
  apply Forall_lookup. intros t u Ht.
  pose proof (lookup_lt_Some _ _ _ Ht) as Hlt.
  rewrite length_fmap scan_length in Hlt.
  pose proof (rollout_control ctx net key Hshape x_init t Hlt) as Hc.
  rewrite rollout_unfold /= Ht in Hc. injection Hc as ->. apply Hshape.
Qed.

Lemma rollout_shapes_witness :
  length (traj_x (rollout toy_ctx tt tt toy_x_init)) = 3 ∧
  length (traj_u (rollout toy_ctx tt tt toy_x_init)) = 2.
Proof.
  assert (1 ≤ nsteps (cfg toy_ctx)) as Hn by (simpl; lia).
  assert (∀ dx : @Data Z_scalar toy_engine,
            length (data_ctrl dx) = nu (mx (cfg toy_ctx))) as Hshape
    by (intros dx; reflexivity).
  destruct (rollout_shapes toy_ctx tt tt toy_x_init Hn Hshape)
    as (Hx & _ & Hu & _).
  split; [exact Hx | exact Hu].
Defined.

(** X12. The subkey that the controller receives at iteration [t] is
    fixed by [key] and [t] alone: it is the same for every initial state,
    so every element of a batch is given the same sequence of subkeys. *)
Theorem rollout_subkeys_shared {F : Scalar} {E : Engine} {Network : Type}
    (ctx : Context Network) (net : Network) (key : Key)
    (x_init x_init' : list num) (t : nat) :
  carry_subkey ctx net key x_init t = (random_split (key_at key t)).2 ∧
  carry_subkey ctx net key x_init t = carry_subkey ctx net key x_init' t.
Proof.
  assert (∀ x, carry_subkey ctx net key x t = (random_split (key_at key t)).2)
    as H by (intros x; by rewrite /carry_subkey carry_key).
  split; [apply H | by rewrite !H].
Qed.

(** X13. The control that the controller returns is not recorded: the
    rollout reads the controls from the engine state. A controller that
    produces the same states, whatever controls it returns beside them,
    gives the same rollout. *)
Theorem rollout_ignores_returned_control {F : Scalar} {E : Engine}
    {Network : Type} (ctx : Context Network) (net : Network) (key : Key)
    (c : Network → Model → Data → Key → Data * list num)
    (x_init : list num) :
  (∀ net m d k, (c net m d k).1 = (controller (cbs ctx) net m d k).1) →
  rollout (with_controller ctx c) net key x_init = rollout ctx net key x_init.
Proof.
  intros Hc. rewrite !rollout_unfold /=.
  rewrite (scan_ext (step (with_controller ctx c) net) (step ctx net)) //.
  intros carry. by apply step_with_controller.
Qed.

Lemma rollout_ignores_returned_control_witness :
  rollout (with_controller toy_ctx toy_controller_silent) tt tt toy_x_init
  = rollout toy_ctx tt tt toy_x_init.
Proof.
  apply (rollout_ignores_returned_control toy_ctx tt tt
           toy_controller_silent toy_x_init).
  intros net m d k. reflexivity.
Defined.

(** X14. A row that [step] packs as [x ++ ctrl ++ [cost] ++ [t]] is
    unpacked by the four slices of [rollout] into the same [x], [ctrl],
    [cost] and [t], when [ctrl] has [nu] entries. *)
Theorem row_unpack_pack {A : Type} (x ctrl : list A) (cost t d : A)
    (n : nat) :
  length ctrl = n →
  let row := x ++ ctrl ++ [cost] ++ [t] in
  slice_to_neg (n + 2) row = x ∧
  slice_neg_neg (n + 2) 2 row = ctrl ∧
  index_neg d 2 row = cost ∧
  index_neg d 1 row = t.
Proof.
  intros Hn row. rewrite /row.
  split; [by apply slice_to_neg_row|].
  split; [by apply slice_neg_neg_row|].
  split; [apply index_neg_2_row | apply index_neg_1_row].
Qed.

Lemma row_unpack_pack_witness :
  slice_to_neg (1 + 2) ([3; 4] ++ [5] ++ [6] ++ [7]) = [3; 4] ∧
  slice_neg_neg (1 + 2) 2 ([3; 4] ++ [5] ++ [6] ++ [7]) = [5] ∧
  index_neg 0 2 ([3; 4] ++ [5] ++ [6] ++ [7]) = 6 ∧
  index_neg 0 1 ([3; 4] ++ [5] ++ [6] ++ [7]) = 7.
Proof.
  apply (row_unpack_pack [3; 4] [5] 6 7 0 1). reflexivity.
Defined.

(** X15. With [nsteps = 1] the scan takes no step: the rollout returns
    the raw [x_init] as its only state, no control, [dt] as its only
    time, and the terminal cost of [set_init x_init] as its only cost. *)
Theorem rollout_single_step {F : Scalar} {E : Engine} {Network : Type}
    (ctx : Context Network) (net : Network) (key : Key)
    (x_init : list num) :
  nsteps (cfg ctx) = 1 →
  rollout ctx net key x_init
  = {| traj_x := [x_init];
       traj_u := [];
       traj_costs := [terminal_cost (cbs ctx) (mx (cfg ctx))
                        (set_init ctx x_init)];
       traj_t := [dt (cfg ctx)] |}.
Proof.
  intros Hn. by rewrite rollout_unfold Hn.
Qed.

Lemma rollout_single_step_witness :
  rollout toy_ctx1 tt tt toy_x_init
  = {| traj_x := [toy_x_init]; traj_u := []; traj_costs := [40%Z];
       traj_t := [1%Z] |}.
Proof.
  exact (rollout_single_step toy_ctx1 tt tt toy_x_init eq_refl).
Defined.

(** ** More on the cache *)

Section CacheMore.
Context {F : Scalar}.

Lemma StronglySorted_inner_from (off : nat) (tf : gset string)
    (tree : PyTree) :
  StronglySorted lt (inner_from off tf tree).
Proof.
  revert off. induction tree as [|[p lf] tree IH]; intros off.
  - constructor.
  - simpl. apply StronglySorted_app. split; [|split].
    + intros a b Ha Hb. apply inner_from_bounds in Hb.
      destruct (name_matches tf p); [|by apply elem_of_nil in Ha].
      apply elem_of_seq in Ha. lia.
    + destruct (name_matches tf p); [|constructor].
      generalize (leaf_size lf). intros n. revert off.
      induction n as [|n IHn]; intros off; [constructor|].
      simpl. constructor; [apply IHn|].
      apply Forall_forall. intros k Hk%elem_of_seq. lia.
    + apply IH.
Qed.
End CacheMore.

(** X16. [build_fd_cache] raises the [ValueError] exactly when no leaf
    of the reference state has a path that names a target field, and
    returns a cache exactly when some leaf has one. *)
Theorem build_fd_cache_raises_iff {F : Scalar} (dx_ref : PyTree)
    (u_ref : list num) (target_fields : option (gset string)) (e : num) :
  let tf := default default_target_fields target_fields in
  (build_fd_cache dx_ref u_ref target_fields e = Raise ValueError
   ↔ Forall (λ pl, ¬ names_target tf pl.1) dx_ref) ∧
  ((∃ c, build_fd_cache dx_ref u_ref target_fields e = Ok c)
   ↔ Exists (λ pl, names_target tf pl.1) dx_ref).
Proof.
  intros tf.
  assert (Forall (λ pl, ¬ names_target tf pl.1) dx_ref
          ↔ Forall (λ pl, name_matches tf pl.1 = false) dx_ref) as HF.
  { apply Forall_proper; [|done]. intros [p lf]. simpl.
    rewrite -name_matches_spec. by destruct (name_matches tf p). }
  assert (Exists (λ pl, names_target tf pl.1) dx_ref
          ↔ Exists (λ pl, name_matches tf pl.1 = true) dx_ref) as HE.
  { apply Exists_proper; [|done]. intros [p lf]. simpl.
    by rewrite -name_matches_spec. }
  destruct (decide (Forall (λ pl, name_matches tf pl.1 = false) dx_ref))
    as [Hall|Hsome].
  - pose proof (build_fd_cache_Raise dx_ref u_ref target_fields e Hall) as Hr.
    split.
    + rewrite HF. by split.
    + rewrite HE Hr. split; [by intros [c ?]|].
      intros Hex. apply Exists_exists in Hex as (pl & Hin & Hm).
      rewrite Forall_forall in Hall. specialize (Hall pl Hin). congruence.
  - assert (Exists (λ pl, name_matches tf pl.1 = true) dx_ref) as Hex.
    { apply not_Forall_Exists in Hsome; [|apply _].
      eapply Exists_impl; [exact Hsome|]. intros [p lf]. simpl.
      by destruct (name_matches tf p). }
    destruct (build_fd_cache_succeeds dx_ref u_ref target_fields e Hex)
      as [c Hc].
    split.
    + rewrite HF Hc. by split.
    + rewrite HE. split; [done | by eauto].
Qed.

(** X17. Requested names that no level of any leaf path carries change
    nothing: the build with them and the build without them have the
    same outcome, be it the same cache or the same error. *)
Theorem unmatched_names_change_nothing {F : Scalar} (dx_ref : PyTree)
    (u_ref : list num) (tf unmatched : gset string) (e : num) :
  (∀ pl level name, pl ∈ dx_ref → level ∈ pl.1 →
                    key_name level = Some name → name ∉ unmatched) →
  build_fd_cache dx_ref u_ref (Some (tf ∪ unmatched)) e
  = build_fd_cache dx_ref u_ref (Some tf) e.
Proof.
  intros H. rewrite /build_fd_cache /idx_target_state /=.
  rewrite (target_leaves_from_ext 0 (tf ∪ unmatched) tf) //.
  apply Forall_forall. intros [p lf] Hin. simpl.
  specialize (H (p, lf)). simpl in H.
  assert (∀ level name, level ∈ p → key_name level = Some name →
                        name ∉ unmatched) as Hp
    by (intros l n Hl Hn; exact (H l n Hin Hl Hn)).
  clear H Hin. induction p as [|level p IH]; [done|].
  simpl. rewrite IH; [intros l n Hl; apply Hp; by right|]. f_equal.
  destruct (key_name level) as [n|] eqn:Hn; [|done].
  apply bool_decide_ext. rewrite elem_of_union. split; [|by left].
  intros [?|Hu]; [done|]. exfalso. eapply Hp; [left | exact Hn | exact Hu].
Qed.

Lemma unmatched_names_change_nothing_witness :
  build_fd_cache zref zu (Some ({[ "qpos" ]} ∪ {[ "foo"; "bar" ]})) 1%Z
  = build_fd_cache zref zu (Some {[ "qpos" ]}) 1%Z.
Proof.
  apply (@unmatched_names_change_nothing Z_scalar zref zu {[ "qpos" ]}
           {[ "foo"; "bar" ]} 1%Z).
  intros pl level name Hpl Hlevel Hname.
  rewrite /zref in Hpl.
  repeat (apply elem_of_cons in Hpl as [->|Hpl]);
    [..|by apply elem_of_nil in Hpl]; simpl in Hlevel;
    repeat (apply elem_of_cons in Hlevel as [->|Hlevel]);
    try (by apply elem_of_nil in Hlevel);
    injection Hname as <-;
    rewrite not_elem_of_union !not_elem_of_singleton; by split.
Defined.

(** X18. The indices of a cache are strictly increasing, and each is a
    position of the flattened state: below [dx_size]. *)
Theorem inner_idx_sorted_in_range {F : Scalar} (dx_ref : PyTree)
    (u_ref : list num) (target_fields : option (gset string)) (e : num)
    (c : FDCache) :
  build_fd_cache dx_ref u_ref target_fields e = Ok c →
  StronglySorted lt (inner_idx c) ∧
  Forall (λ k, k < dx_size c) (inner_idx c) ∧
  dx_size c = length (ravel dx_ref) ∧
  num_u_dims c = length u_ref ∧
  eps c = e.
Proof.
  intros Hb. apply build_fd_cache_Ok in Hb as (Hi & _ & _ & Hd & Hu & He).
  rewrite Hi Hd. split; [apply StronglySorted_inner_from|].
  split; [|done]. apply Forall_forall. intros k Hk%inner_from_bounds. lia.
Qed.

Lemma inner_idx_sorted_in_range_witness :
  StronglySorted lt (inner_idx zcache) ∧
  Forall (λ k, k < dx_size zcache) (inner_idx zcache).
Proof.
  assert (build_fd_cache zref zu None 1%Z = Ok zcache) as Hb
    by (vm_compute; reflexivity).
  destruct (@inner_idx_sorted_in_range Z_scalar zref zu None 1%Z zcache Hb)
    as (Hs & Hr & _).
  split; [exact Hs | exact Hr].
Defined.

(** ** More on the adjoint *)

Section AdjointMore.
Context {F : Scalar}.

Lemma unravel_same_shape (ref : PyTree) (w : list num) :
  length (ravel ref) ≤ length w → same_shape ref (unravel ref w).
Proof.
  revert w. induction ref as [|[p lf] ref IH]; intros w Hlen.
  - constructor.
  - rewrite ravel_cons length_app length_leaf_ravel in Hlen.
    rewrite unravel_cons. constructor.
    + split; [done|]. split; [by destruct lf|].
      destruct lf; simpl in *; rewrite ?length_fmap length_take; lia.
    + apply IH. rewrite length_drop. lia.
Qed.

Lemma same_shape_common (ref a b : PyTree) :
  same_shape ref a → same_shape ref b → same_shape a b.
Proof.
  intros Ha. revert b.
  induction Ha as [|[p r] [q x] ref a (Hp & Hd & Hs) _ IH]; intros b Hb.
  - inversion Hb. constructor.
  - inversion Hb as [|? [q' y] ? b' (Hp' & Hd' & Hs') Hb']; subst.
    simpl in *. constructor; [|by apply IH].
    rewrite /same_leaf_shape /=. split; [congruence|]. split; congruence.
Qed.

Lemma length_matvec (M : list (list num)) (b : list num) :
  length (matvec M b) = length M.
Proof. by rewrite /matvec length_fmap. Qed.

Lemma elem_of_at_set_rows {A} (base : list A) (idxs : list nat)
    (rows : list A) (x : A) :
  x ∈ at_set_rows base idxs rows → x ∈ base ∨ x ∈ rows.
Proof.
  rewrite /at_set_rows. revert base rows.
  induction idxs as [|i idxs IH]; intros base rows Hx; [by left|].
  destruct rows as [|r rows]; [by left|].
  simpl in Hx. apply IH in Hx as [Hx|Hx]; [|right; by right].
  apply list_elem_of_lookup in Hx as [j Hj].
  apply list_lookup_insert_Some in Hj as [(_ & <- & _)|(_ & Hj)].
  - right. left.
  - left. exact (list_elem_of_lookup_2 _ _ _ Hj).
Qed.

Lemma vsum_zeros `{!ScalarLaws F} (l : list num) :
  Forall (λ x, x = s0) l → vsum l = s0.
Proof.
  rewrite /vsum. induction 1 as [|x l -> _ IH]; [done|].
  by rewrite /= IH sadd_0_l.
Qed.

Lemma dot_vanishing `{!ScalarLaws F} (row g : list num) :
  (∀ j r v, row !! j = Some r → g !! j = Some v → smul r v = s0) →
  dot row g = s0.
Proof.
  intros H. apply vsum_zeros, Forall_lookup. intros j x Hx.
  apply lookup_zip_with_Some in Hx as (r & v & -> & Hr & Hv).
  exact (H _ _ _ Hr Hv).
Qed.

Lemma masked_entry `{!ScalarLaws F, !ScalarZeroLaws F}
    (mask d : list num) (e : num) (j : nat) (v : num) :
  e ≠ s0 → mask !! j = Some s0 → vdivs (vmul mask d) e !! j = Some v →
  v = s0.
Proof.
  intros He Hm Hv. rewrite /vdivs list_lookup_fmap in Hv.
  destruct (vmul mask d !! j) as [x|] eqn:Hx; [|done].
  injection Hv as <-.
  apply lookup_zip_with_Some in Hx as (m & y & -> & Hm' & _).
  rewrite Hm in Hm'. injection Hm' as <-.
  by rewrite smul_0_l sdiv_0_l.
Qed.

Lemma masked_lookup (mask d : list num) (e : num) (j : nat) (v : num) :
  vdivs (vmul mask d) e !! j = Some v → ∃ m, mask !! j = Some m.
Proof.
  intros Hv. rewrite /vdivs list_lookup_fmap in Hv.
  destruct (vmul mask d !! j) as [x|] eqn:Hx; [|done].
  apply lookup_zip_with_Some in Hx as (m & y & _ & Hm & _). eauto.
Qed.

Variable mjx_step : PyTree → PyTree.
Variable set_control_fn : PyTree → list num → PyTree.

(** An entry of a Jacobian row in a column outside [inner_idx]. *)
Lemma jacobian_entry_masked `{!ScalarLaws F, !ScalarZeroLaws F}
    (dx_ref : PyTree) (u_ref : list num) (tf : option (gset string))
    (c : FDCache) (dx : PyTree) (u : list num) (dx_out : PyTree)
    (row : list num) (j : nat) (v : num) :
  build_fd_cache dx_ref u_ref tf (eps c) = Ok c → eps c ≠ s0 →
  row ∈ Ju_array mjx_step set_control_fn c dx u dx_out
  ∨ row ∈ Jx_array mjx_step set_control_fn c dx u dx_out →
  j ∉ inner_idx c → row !! j = Some v → v = s0.
Proof.
  intros Hb He Hrow Hj Hv.
  apply build_fd_cache_Ok in Hb as (_ & Hm & _).
  assert (∀ m, sensitivity_mask c !! j = Some m → m = s0) as Hmask.
  { intros m. rewrite Hm lookup_at_set_notin //.
    intros ?%list_elem_of_lookup_2%elem_of_replicate_inv. done. }
  assert (∀ d, vdivs (vmul (sensitivity_mask c) d) (eps c) !! j = Some v
               → v = s0) as Hfd.
  { intros d Hd. destruct (masked_lookup _ _ _ _ _ Hd) as [m Hmj].
    pose proof (Hmask m Hmj) as ->.
    exact (masked_entry _ _ _ _ _ He Hmj Hd). }
  destruct Hrow as [Hrow|Hrow].
  - rewrite /Ju_array in Hrow.
    apply list_elem_of_fmap in Hrow as (i & -> & _). exact (Hfd _ Hv).
  - rewrite /Jx_array /scatter_rows in Hrow.
    apply elem_of_at_set_rows in Hrow as [Hrow|Hrow].
    + apply elem_of_replicate_inv in Hrow. subst row.
      by apply list_elem_of_lookup_2, elem_of_replicate_inv in Hv.
    + rewrite /Jx_rows in Hrow.
      apply list_elem_of_fmap in Hrow as (i & -> & _). exact (Hfd _ Hv).
Qed.
End AdjointMore.

(** X20. For a cache built from a state of the shape of the input, the
    gradients that the backward pass returns have the shapes of the
    inputs: the state gradient has the paths, dtypes and leaf sizes of
    the input state, and the control gradient has as many entries as the
    reference control. *)
Theorem step_fn_bwd_shapes {F : Scalar}
    (mjx_step : PyTree → PyTree) (set_control_fn : PyTree → list num → PyTree)
    (dx_ref : PyTree) (u_ref : list num) (target_fields : option (gset string))
    (e : num) (c : FDCache) (dx : PyTree) (u : list num) (dx_out : PyTree)
    (g : GradTree) (d_x : PyTree) (d_u : list num) :
  build_fd_cache dx_ref u_ref target_fields e = Ok c →
  same_shape dx_ref dx →
  step_fn_bwd mjx_step set_control_fn c (dx, u, dx_out) g = Ok (d_x, d_u) →
  same_shape dx d_x ∧ length d_u = length u_ref.
Proof.
  intros Hb Hshape Hbwd.
  apply build_fd_cache_Ok in Hb as (_ & _ & Hun & _ & Hu & _).
  rewrite /step_fn_bwd in Hbwd.
  destruct (map_g_to_dinput dx g) as [m|] eqn:Hm; [|done].
  simpl in Hbwd. injection Hbwd as <- <-. split.
  - apply (same_shape_common dx_ref); [done|].
    rewrite Hun. apply unravel_same_shape.
    rewrite length_matvec /Jx_array /scatter_rows length_at_set_rows.
    rewrite length_replicate. by rewrite (same_shape_length_ravel _ _ Hshape).
  - by rewrite length_matvec /Ju_array length_fmap /arange length_seq
               Nat.sub_0_r.
Qed.

Lemma step_fn_bwd_shapes_witness :
  ∃ d_x d_u,
    step_fn_bwd toy_mjx_step toy_set_control zcache
      (zstate, zu, step_fn toy_mjx_step toy_set_control zstate zu) zgrad
    = Ok (d_x, d_u) ∧
    same_shape zstate d_x ∧ length d_u = length zu.
Proof.
  assert (build_fd_cache zref zu None 1%Z = Ok zcache) as Hb
    by (vm_compute; reflexivity).
  assert (same_shape zref zstate) as Hs by repeat constructor.
  eexists _, _. split; [reflexivity|].
  exact (@step_fn_bwd_shapes Z_scalar toy_mjx_step toy_set_control zref zu
           None 1%Z zcache zstate zu _ zgrad _ _ Hb Hs eq_refl).
Defined.

(** X21. For a cache built by [build_fd_cache] with a step size other
    than 0, every Jacobian of the backward pass is zero in the columns
    outside [inner_idx]: an entry of a row of [Ju_array] or of [Jx_array]
    at such a position is 0. *)
Theorem jacobian_columns_masked {F : Scalar}
    `{!ScalarLaws F, !ScalarZeroLaws F}
    (mjx_step : PyTree → PyTree) (set_control_fn : PyTree → list num → PyTree)
    (dx_ref : PyTree) (u_ref : list num) (target_fields : option (gset string))
    (c : FDCache) (dx : PyTree) (u : list num) (dx_out : PyTree)
    (row : list num) (j : nat) (v : num) :
  build_fd_cache dx_ref u_ref target_fields (eps c) = Ok c →
  eps c ≠ s0 →
  row ∈ Ju_array mjx_step set_control_fn c dx u dx_out
  ∨ row ∈ Jx_array mjx_step set_control_fn c dx u dx_out →
  j ∉ inner_idx c →
  row !! j = Some v →
  v = s0.
Proof.
  intros Hb He Hrow Hj Hv.
  exact (jacobian_entry_masked mjx_step set_control_fn dx_ref u_ref
           target_fields c dx u dx_out row j v Hb He Hrow Hj Hv).
Qed.

Lemma jacobian_columns_masked_witness :
  build_fd_cache sref zu None (eps scache) = Ok scache ∧
  eps scache ≠ (0%Z : @num Z_scalar) ∧
  (1 ∉ inner_idx scache) ∧
  ∃ v : @num Z_scalar,
    fdu_plus sensor_mjx_step toy_set_control scache sstate zu
      (step_fn sensor_mjx_step toy_set_control sstate zu) 0 !! 1 = Some v ∧
    v = 0%Z.
Proof.
  assert (build_fd_cache sref zu None (eps scache) = Ok scache) as Hb
    by (vm_compute; reflexivity).
  assert (eps scache ≠ (0%Z : @num Z_scalar)) as He by done.
  assert (1 ∉ inner_idx scache) as Hj.
  { rewrite /= !not_elem_of_cons. repeat split; [done..|]. apply not_elem_of_nil. }
  split; [exact Hb|]. split; [exact He|]. split; [exact Hj|].
  eexists. split; [reflexivity|].
  apply (@jacobian_columns_masked Z_scalar Z_laws Z_zero_laws
           sensor_mjx_step toy_set_control sref zu None scache sstate zu
           (step_fn sensor_mjx_step toy_set_control sstate zu)
           (fdu_plus sensor_mjx_step toy_set_control scache sstate zu
              (step_fn sensor_mjx_step toy_set_control sstate zu) 0)
           1 _ Hb He); [|exact Hj|reflexivity].
  left. rewrite /Ju_array. apply list_elem_of_fmap. exists 0.
  split; [reflexivity|]. simpl. left.
Defined.

Section AdjointZero.
Context {F : Scalar}.
Variable mjx_step : PyTree → PyTree.
Variable set_control_fn : PyTree → list num → PyTree.

Lemma matvec_vanishing `{!ScalarLaws F} (M : list (list num))
    (b : list num) :
  (∀ row j r v, row ∈ M → row !! j = Some r → b !! j = Some v →
                smul r v = s0) →
  matvec M b = zeros (length M).
Proof.
  intros H. rewrite /matvec /zeros.
  induction M as [|row M IH]; [done|].
  csimpl. f_equal.
  - apply dot_vanishing. intros j r v. apply H. by left.
  - apply IH. intros row' j r v Hin. apply H. by right.
Qed.

Lemma forward_difference_same (mask o : list num) (e : num) :
  Forall (λ m, smul m s0 = s0) mask → Forall (λ y, ssub y y = s0) o →
  sdiv s0 e = s0 →
  Forall (λ x, x = s0) (forward_difference mask o o e).
Proof.
  intros Hmask Ho He. rewrite /forward_difference.
  apply Forall_fmap, Forall_lookup.
  intros j [m [x y]] Hj. simpl.
  apply lookup_zip_with_Some in Hj as (m' & xy & [= <- <-] & Hm & Hxy).
  apply lookup_zip_with_Some in Hxy as (x' & y' & [= -> ->] & Hx & Hy).
  rewrite Hx in Hy. injection Hy as <-.
  rewrite (proj1 (Forall_lookup _ _) Ho _ _ Hx).
  by rewrite (proj1 (Forall_lookup _ _) Hmask _ _ Hm).
Qed.

(** The mask of a cache holds zeros and ones. *)
Lemma mask_entries (idxs : list nat) (n : nat) :
  Forall (λ m, m = s0 ∨ m = s1) (at_set (zeros n) idxs s1).
Proof.
  rewrite mask_indicator /indicator. apply Forall_fmap, Forall_forall.
  intros k _. simpl. case_bool_decide; auto.
Qed.

Lemma leaf_start_mono (tree : PyTree) (a b : nat) :
  a ≤ b → leaf_start tree a ≤ leaf_start tree b.
Proof.
  intros Hab. rewrite /leaf_start.
  replace b with (a + (b - a)) by lia.
  rewrite -take_take_drop fmap_app sum_list_with_app. lia.
Qed.

Lemma leaf_ranges_ordered (tree : PyTree) (i j : nat) (p : list key)
    (lf : leaf) :
  tree !! i = Some (p, lf) → i < j →
  leaf_start tree i + leaf_size lf ≤ leaf_start tree j.
Proof.
  intros Hi Hij. rewrite -(leaf_start_S _ _ _ _ Hi).
  apply leaf_start_mono. lia.
Qed.

Lemma lookup_unravel (ref : PyTree) (w : list num) (j : nat) :
  unravel ref w !! j
  = (λ pl : list key * leaf,
       (pl.1, leaf_unravel pl.2
                (take (leaf_size pl.2) (drop (leaf_start ref j) w))))
    <$> ref !! j.
Proof.
  revert w j. induction ref as [|[p lf] ref IH]; intros w j; [done|].
  destruct j as [|j]; [done|].
  rewrite unravel_cons /= IH leaf_start_cons /= drop_drop. done.
Qed.

(** Perturbing a flat coordinate of leaf [i] changes no other leaf of
    the unflattened state. *)
Lemma unravel_perturb_other (ref : PyTree) (w : list num) (i idx j : nat)
    (e : num) :
  in_leaf ref i idx → j ≠ i →
  unravel ref (perturb w idx e) !! j = unravel ref w !! j.
Proof.
  intros (p & lf & Hi & Hlo & Hhi) Hne. rewrite !lookup_unravel.
  destruct (ref !! j) as [[q lf']|] eqn:Hj; [|done].
  simpl. do 3 f_equal. apply list_eq. intros k.
  destruct (decide (k < leaf_size lf')) as [Hk|Hk].
  - rewrite !lookup_take_lt // !lookup_drop. apply perturb_lookup_ne.
    destruct (decide (i < j)) as [Hlt|Hge].
    + pose proof (leaf_ranges_ordered _ _ _ _ _ Hi Hlt). lia.
    + assert (j < i) as Hlt by lia.
      pose proof (leaf_ranges_ordered _ _ _ _ _ Hj Hlt). lia.
  - rewrite !lookup_take_ge //; lia.
Qed.

Lemma step_fn_overwritten (ref dx : PyTree)
    (u : list num) (i idx : nat) (e : num) :
  same_shape ref dx → exact_on_discrete dx →
  overwrites_leaf set_control_fn ref i →
  in_leaf ref i idx →
  step_fn mjx_step set_control_fn (unravel ref (perturb (ravel dx) idx e)) u
  = step_fn mjx_step set_control_fn dx u.
Proof.
  intros Hs Hex Hover Hin. rewrite /step_fn. f_equal.
  apply Hover; [|done|].
  - apply unravel_same_shape.
    by rewrite length_perturb (same_shape_length_ravel _ _ Hs).
  - intros j Hj. rewrite (unravel_perturb_other _ _ _ _ _ _ Hin Hj).
    by rewrite unravel_ravel_exact.
Qed.
End AdjointZero.

(** X22. In exact arithmetic, without infinities and NaN (the laws
    [0 + x = x + 0 = x], [0 * x = x * 0 = 0], [0 / e = 0] for [e] other
    than 0, and exact conversion of integers are assumed of the
    scalars), and for a cache built by
    [build_fd_cache] with a step size other than 0: when the flattened
    upstream gradient (float0 leaves zeroed) is 0 at every flat
    coordinate of [inner_idx], the backward pass returns the zero state
    gradient and the zero control gradient, for any values of the
    upstream gradient at the other coordinates and any simulator over
    such scalars. *)
Theorem no_gradient_outside_targets {F : Scalar}
    `{!ScalarLaws F, !ScalarZeroLaws F}
    (mjx_step : PyTree → PyTree) (set_control_fn : PyTree → list num → PyTree)
    (dx_ref : PyTree) (u_ref : list num) (target_fields : option (gset string))
    (c : FDCache) (dx : PyTree) (u : list num) (dx_out : PyTree)
    (g : GradTree) (mapped_g : PyTree) :
  build_fd_cache dx_ref u_ref target_fields (eps c) = Ok c →
  eps c ≠ s0 →
  map_g_to_dinput dx g = Ok mapped_g →
  (∀ j v, j ∈ inner_idx c → ravel mapped_g !! j = Some v → v = s0) →
  step_fn_bwd mjx_step set_control_fn c (dx, u, dx_out) g
  = Ok (unravel_dx c (zeros (length (ravel dx))), zeros (num_u_dims c)).
Proof.
  intros Hb He Hm Hg.
  rewrite (step_fn_bwd_Ok _ _ _ _ _ _ _ _ Hm).
  assert (∀ row j r v,
            row ∈ Ju_array mjx_step set_control_fn c dx u dx_out
            ∨ row ∈ Jx_array mjx_step set_control_fn c dx u dx_out →
            row !! j = Some r → ravel mapped_g !! j = Some v →
            smul r v = s0) as Hz.
  { intros row j r v Hrow Hr Hv.
    destruct (decide (j ∈ inner_idx c)) as [Hj|Hj].
    - rewrite (Hg _ _ Hj Hv). apply smul_0_r.
    - rewrite (jacobian_entry_masked mjx_step set_control_fn dx_ref u_ref
                 target_fields c dx u dx_out row j r Hb He Hrow Hj Hr).
      apply smul_0_l. }
  rewrite (matvec_vanishing (Jx_array mjx_step set_control_fn c dx u dx_out));
    [intros row j r v Hrow; apply Hz; by right|].
  rewrite (matvec_vanishing (Ju_array mjx_step set_control_fn c dx u dx_out));
    [intros row j r v Hrow; apply Hz; by left|].
  do 3 f_equal.
  - rewrite /Jx_array /scatter_rows length_at_set_rows.
    by rewrite length_replicate.
  - by rewrite /Ju_array length_fmap /arange length_seq Nat.sub_0_r.
Qed.

Lemma no_gradient_outside_targets_witness :
  build_fd_cache sref zu None (eps scache) = Ok scache ∧
  step_fn_bwd sensor_mjx_step toy_set_control scache
    (sstate, zu, step_fn sensor_mjx_step toy_set_control sstate zu) sgrad
  = Ok (unravel_dx scache (zeros (length (ravel sstate))),
        zeros (num_u_dims scache)).
Proof.
  assert (build_fd_cache sref zu None (eps scache) = Ok scache) as Hb
    by (vm_compute; reflexivity).
  assert (eps scache ≠ (0%Z : @num Z_scalar)) as He by done.
  split; [exact Hb|].
  apply (@no_gradient_outside_targets Z_scalar Z_laws Z_zero_laws
           sensor_mjx_step toy_set_control sref zu None scache sstate zu
           (step_fn sensor_mjx_step toy_set_control sstate zu) sgrad
           _ Hb He eq_refl).
  intros j v Hj Hv. simpl in Hj.
  apply elem_of_cons in Hj as [->|Hj]; [by injection Hv|].
  apply elem_of_cons in Hj as [->|Hj]; [by injection Hv|].
  by apply elem_of_nil in Hj.
Defined.

(** X23. A target leaf that the control setter overwrites gives
    finite-difference rows without information, over floating-point
    numbers with their infinities and NaN too. When [set_control_fn] does
    not read leaf [i] of the state, and the integer entries of the state
    convert exactly, the step from the state perturbed at a flat
    coordinate of leaf [i] is the unperturbed step; and then the row that
    [fdx_for_index] computes there for the residuals of a forward step is
    zero in every entry when every entry [y] of the flattened step output
    has [y - y = 0] (is finite) and [0 / eps = 0]. *)
Theorem overwritten_leaf_row_zero {F : Scalar} `{!FloatLaws F}
    (mjx_step : PyTree → PyTree) (set_control_fn : PyTree → list num → PyTree)
    (dx_ref : PyTree) (u_ref : list num) (target_fields : option (gset string))
    (c : FDCache) (dx : PyTree) (u : list num) (i idx : nat) :
  build_fd_cache dx_ref u_ref target_fields (eps c) = Ok c →
  same_shape dx_ref dx →
  exact_on_discrete dx →
  overwrites_leaf set_control_fn dx_ref i →
  in_leaf dx_ref i idx →
  step_fn mjx_step set_control_fn
    (unravel_dx c (perturb (ravel dx) idx (eps c))) u
  = step_fn mjx_step set_control_fn dx u
  ∧ (sdiv s0 (eps c) = s0 →
     Forall (λ y, ssub y y = s0)
       (ravel (step_fn mjx_step set_control_fn dx u)) →
     Forall (λ x, x = s0)
       (fdx_for_index mjx_step set_control_fn c dx u
          (step_fn mjx_step set_control_fn dx u) idx)).
Proof.
  intros Hb Hs Hex Hover Hin.
  apply build_fd_cache_Ok in Hb as (_ & Hmask & Hun & _).
  assert (step_fn mjx_step set_control_fn
            (unravel_dx c (perturb (ravel dx) idx (eps c))) u
          = step_fn mjx_step set_control_fn dx u) as Hstep.
  { rewrite Hun.
    exact (step_fn_overwritten mjx_step set_control_fn dx_ref dx u i idx
             (eps c) Hs Hex Hover Hin). }
  split; [exact Hstep|]. intros He Hfin.
  rewrite fdx_for_index_float_spec Hstep.
  apply forward_difference_same; [|done|done].
  rewrite Hmask.
  apply (Forall_impl _ _ _ (mask_entries _ _)).
  intros m [->| ->]; [apply fmul_0_0 | apply fmul_1_0].
Qed.

Lemma x_set_control_overwrites : overwrites_leaf x_set_control xref 3.
Proof.
  intros a b u Ha Hb Hab. rewrite /same_shape /xref in Ha Hb.
  apply Forall2_cons_inv_l in Ha as ([p0 l0] & a1 & [Hp0 _] & Ha & ->).
  apply Forall2_cons_inv_l in Ha as ([p1 l1] & a2 & [Hp1 _] & Ha & ->).
  apply Forall2_cons_inv_l in Ha as ([p2 l2] & a3 & [Hp2 _] & Ha & ->).
  apply Forall2_cons_inv_l in Ha as ([p3 l3] & a4 & [Hp3 _] & Ha & ->).
  apply Forall2_nil_inv_l in Ha as ->.
  apply Forall2_cons_inv_l in Hb as ([q0 m0] & b1 & [Hq0 _] & Hb & ->).
  apply Forall2_cons_inv_l in Hb as ([q1 m1] & b2 & [Hq1 _] & Hb & ->).
  apply Forall2_cons_inv_l in Hb as ([q2 m2] & b3 & [Hq2 _] & Hb & ->).
  apply Forall2_cons_inv_l in Hb as ([q3 m3] & b4 & [Hq3 _] & Hb & ->).
  apply Forall2_nil_inv_l in Hb as ->.
  simpl in *. subst.
  pose proof (Hab 0 ltac:(done)) as H0.
  pose proof (Hab 1 ltac:(done)) as H1.
  pose proof (Hab 2 ltac:(done)) as H2.
  simpl in H0, H1, H2. injection H0 as ->. injection H1 as ->.
  injection H2 as ->. reflexivity.
Qed.

Lemma overwritten_leaf_row_zero_witness :
  build_fd_cache xref xu None (eps xcache) = Ok xcache ∧
  in_leaf xref 3 3 ∧
  step_fn x_mjx_step x_set_control
    (unravel_dx xcache (perturb (ravel xstate) 3 (eps xcache))) xu
  = step_fn x_mjx_step x_set_control xstate xu
  ∧ Forall (λ x : @num float_scalar, x = fin 0)
      (fdx_for_index x_mjx_step x_set_control xcache xstate xu
         (step_fn x_mjx_step x_set_control xstate xu) 3).
Proof.
  assert (build_fd_cache xref xu None (eps xcache) = Ok xcache) as Hb
    by (vm_compute; reflexivity).
  assert (same_shape xref xstate) as Hs by repeat constructor.
  assert (exact_on_discrete xstate) as Hex by repeat constructor.
  assert (in_leaf xref 3 3) as Hin.
  { eexists _, _. split; [reflexivity|]. vm_compute. split; lia. }
  split; [exact Hb|]. split; [exact Hin|].
  destruct (@overwritten_leaf_row_zero float_scalar float_laws
              x_mjx_step x_set_control xref xu None xcache xstate xu
              3 3 Hb Hs Hex x_set_control_overwrites Hin) as [Hstep Hrow].
  split; [exact Hstep|].
  apply Hrow; [reflexivity|]. repeat constructor.
Defined.
